(** * Supervisory tasks of the SPARC beamline controller

    A shallow embedding of [laser_synch_task.py] (class [LaserSynchTask]) and
    of the motor-movement callback of [check_motor_movement.py]
    (class [CheckMotorMovement]), with the properties of the sliding-window
    buffers, the interlock, the tracking step and the control loop.

    Conventions of the embedding:
    - a Python float is a rational or NaN ([pyfloat]); rounding and the
      infinities are outside the model;
    - a value read from a process variable or from Channel Access is
      [option pyfloat], [None] being Python's [None];
    - [caget] may return a value, return [None], or raise; [caput] and the
      logger are output events collected in a trace and do not raise;
    - the methods inherited from [TaskBase] (not part of these sources) are a
      store of process variables and three fields: status, message, cycle. *)

From Stdlib Require Import QArith Qabs ZArith List Ascii String Lia Lqa.
From stdpp Require Import gmap strings list.

Local Open Scope Z_scope.

(* ===================================================================== *)
(** ** Python numbers                                                     *)
(* ===================================================================== *)

Module Py.

(** A float: a finite value or NaN. *)
Inductive pyfloat : Type :=
| Fin (q : Q)
| NaN.

(** A value that may be [None]. *)
Definition pyval : Type := option pyfloat.

Definition Qltb (a b : Q) : bool :=
  match (a ?= b)%Q with Lt => true | _ => false end.

(** [a > b], [a < b], [a == b] on floats: every comparison with NaN is
    false. *)
Definition fgt (a b : pyfloat) : bool :=
  match a, b with
  | Fin x, Fin y => Qltb y x
  | _, _ => false
  end.

Definition flt (a b : pyfloat) : bool := fgt b a.


Definition fabs (a : pyfloat) : pyfloat :=
  match a with
  | Fin x => Fin (Qabs x)
  | NaN => NaN
  end.

Definition fneg (a : pyfloat) : pyfloat :=
  match a with
  | Fin x => Fin (- x)%Q
  | NaN => NaN
  end.

(** Truth value of a float: zero is false, everything else (NaN too) is
    true. *)
Definition truthy (a : pyfloat) : bool :=
  match a with
  | Fin x => negb (Qeq_bool x 0)
  | NaN => true
  end.

(** Truth value of a value that may be [None]. *)
Definition truth (v : pyval) : bool :=
  match v with
  | Some a => truthy a
  | None => false
  end.

(** [v or d]. *)
Definition or_default (v : pyval) (d : pyfloat) : pyfloat :=
  match v with
  | Some a => if truthy a then a else d
  | None => d
  end.

Definition of_Z (z : Z) : pyfloat := Fin (inject_Z z).

(** The last character of a string. *)
Fixpoint last_char (s : string) : option Ascii.ascii :=
  match s with
  | EmptyString => None
  | String c EmptyString => Some c
  | String _ s' => last_char s'
  end.

(** Truth value of a string: the empty string is false. *)
Definition nonempty (s : string) : bool :=
  match s with
  | EmptyString => false
  | String _ _ => true
  end.

(** [seq[start:stop]] for integers [start], [stop] of either sign. *)
Definition clamp_index (len i : Z) : Z :=
  if i <? 0 then Z.max 0 (i + len) else Z.min i len.

Definition slice {A : Type} (l : list A) (start stop : Z) : list A :=
  let len := Z.of_nat (length l) in
  let a := clamp_index len start in
  let b := clamp_index len stop in
  take (Z.to_nat (b - a)) (drop (Z.to_nat a) l).

Definition is_nan (a : pyfloat) : bool :=
  match a with NaN => true | Fin _ => false end.

Definition qsum (l : list pyfloat) : Q :=
  fold_right (fun a acc => match a with Fin x => (x + acc)%Q | NaN => acc end) 0%Q l.

(** [np.mean]: NaN on an empty sequence (numpy warns, it does not raise)
    and as soon as one element is NaN. *)
Definition mean (l : list pyfloat) : pyfloat :=
  match l with
  | [] => NaN
  | _ => if existsb is_nan l then NaN
         else Fin (qsum l / inject_Z (Z.of_nat (length l)))%Q
  end.

Definition max2 (a b : pyfloat) : pyfloat :=
  match a, b with
  | Fin x, Fin y => if Qltb x y then Fin y else Fin x
  | _, _ => NaN
  end.

(** [np.max] on a non-empty sequence; NaN propagates. *)
Definition max_from (a : pyfloat) (l : list pyfloat) : pyfloat :=
  fold_left max2 l a.

End Py.

Import Py.

(* ===================================================================== *)
(** ** The sliding windows                                                *)
(* ===================================================================== *)

(** The three buffers are Python lists updated by the same two statements,
    [buf.append(x)] followed by [if len(buf) > n: buf.pop(0)]
    (lines 127-129, 139-141 and 147-149 of [laser_synch_task.py]). *)
Definition push_evict {A : Type} (n : Z) (buf : list A) (x : A) : list A :=
  let buf' := buf ++ [x] in
  if Z.of_nat (length buf') >? n then tail buf' else buf'.

(** The pushes of a whole sequence, oldest first. *)
Definition push_all {A : Type} (n : Z) (buf : list A) (xs : list A) : list A :=
  fold_left (push_evict n) xs buf.

(** The successive contents of the buffer, one per push. *)
Fixpoint push_history {A : Type} (n : Z) (buf : list A) (xs : list A)
  : list (list A) :=
  match xs with
  | [] => []
  | x :: xs' => let b := push_evict n buf x in b :: push_history n b xs'
  end.

(** The last [k] elements of a list, in order. *)
Definition last_n {A : Type} (k : nat) (l : list A) : list A :=
  drop (length l - k)%nat l.


(* ===================================================================== *)
(** ** Task state, exceptions and effects                                 *)
(* ===================================================================== *)

(** The exceptions of the model are subclasses of [Exception], those that
    [except Exception] catches. *)
Inductive exn : Type :=
| TypeError (msg : string)
| ValueError (msg : string)
| CaError (msg : string).

(** [str(e)]. *)
Definition exn_str (e : exn) : string :=
  match e with
  | TypeError msg | ValueError msg | CaError msg => msg
  end.

Inductive outcome (A : Type) : Type :=
| Ok (a : A)
| Raised (e : exn).
Arguments Ok {A} a.
Arguments Raised {A} e.

(** What one [caget] does: it gives a value or raises. *)
Inductive read (A : Type) : Type :=
| Returned (v : A)
| Failed (e : exn).
Arguments Returned {A} v.
Arguments Failed {A} e.

Inductive level : Type := Debug | Info | Warning | Error.

(** The value handed to [caput]: a string literal, a number, or [str(x)]
    of a number (the number is kept, its decimal rendering is not
    modelled). *)
Inductive putval : Type :=
| PutStr (s : string)
| PutNum (a : pyfloat)
| PutStrOf (a : pyfloat).

(** Output effects, in program order. [LogNum lvl text a] and
    [LogVal lvl text v] are messages whose text ends with the rendering of a
    number or of a value; [DeviceSet d v] is [d.set(v)] on a device. *)
Inductive event : Type :=
| Caput (pv : string) (v : putval)
| Log (lvl : level) (text : string)
| LogNum (lvl : level) (text : string) (a : pyfloat)
| LogVal (lvl : level) (text : string) (v : pyval)
| DeviceSet (device : string) (v : pyfloat)
| Sleep (period : Q).

(** Task parameters, read once by [initialize] (lines 27-34). *)
Record config : Type := {
  loop_period : Q;
  avg_num : Z;
  interlock_buff_length : Z;
  prefix_redpitaya : string;
  prefix_motor : string;
  pv_laser_amp_llrf : string
}.

(** The attributes of the task object. The three buffers are those of
    [LaserSynchTask]; [pvs], [status], [message] and [cycle] stand for what
    [TaskBase] keeps behind [get_pv]/[set_pv], [set_status], [set_message]
    and [get_cycle]/[step_cycle]. *)
Record task : Type := {
  corr_buff : list pyfloat;
  err_buff : list pyfloat;
  laser_amp_buff : list pyfloat;
  pvs : gmap string pyfloat;
  status : string;
  message : string;
  cycle : Z
}.

(** The values the four Channel Access reads of one cycle would give, in
    the order of the source: PLL status (line 102), correction waveform
    (line 116), laser amplitude (line 137), error waveform (line 145). *)
Record cycle_inputs : Type := {
  in_pll_status : read pyval;
  in_wave_corr : read (option (list pyfloat));
  in_laser_amp : read pyval;
  in_wave_err : read (option (list pyfloat))
}.

(** A computation on the task: it ends normally or raises, and in both
    cases leaves a task state and the events it emitted. *)
Definition M (A : Type) : Type := task -> outcome A * task * list event.

Definition ret {A : Type} (a : A) : M A := fun s => (Ok a, s, []).

Definition raise {A : Type} (e : exn) : M A := fun s => (Raised e, s, []).

Definition bind {A B : Type} (m : M A) (f : A -> M B) : M B := fun s =>
  match m s with
  | (Ok a, s1, t1) =>
      match f a s1 with
      | (r, s2, t2) => (r, s2, t1 ++ t2)
      end
  | (Raised e, s1, t1) => (Raised e, s1, t1)
  end.

(** [try: m except Exception as e: h e]. *)
Definition try_except {A : Type} (m : M A) (h : exn -> M A) : M A := fun s =>
  match m s with
  | (Ok a, s1, t1) => (Ok a, s1, t1)
  | (Raised e, s1, t1) =>
      match h e s1 with
      | (r, s2, t2) => (r, s2, t1 ++ t2)
      end
  end.

Declare Scope task_scope.
Delimit Scope task_scope with task.
Notation "x <- m ;; k" := (bind m (fun x => k))
  (at level 100, m at next level, k at level 200, right associativity)
  : task_scope.
Notation "m ;; k" := (bind m (fun _ => k))
  (at level 100, k at level 200, right associativity) : task_scope.
Local Open Scope task_scope.

Definition result_of {A : Type} (x : outcome A * task * list event) : outcome A :=
  x.1.1.
Definition state_of {A : Type} (x : outcome A * task * list event) : task :=
  x.1.2.
Definition trace_of {A : Type} (x : outcome A * task * list event) : list event :=
  x.2.

(** *** Primitive operations *)

Definition emit (e : event) : M unit := fun s => (Ok tt, s, [e]).
Definition caput (pv : string) (v : putval) : M unit := emit (Caput pv v).
Definition log (lvl : level) (text : string) : M unit := emit (Log lvl text).
Definition log_num (lvl : level) (text : string) (a : pyfloat) : M unit :=
  emit (LogNum lvl text a).
Definition log_val (lvl : level) (text : string) (v : pyval) : M unit :=
  emit (LogVal lvl text v).
Definition sleep (period : Q) : M unit := emit (Sleep period).

Definition caget {A : Type} (r : read A) : M A :=
  match r with
  | Returned v => ret v
  | Failed e => raise e
  end.

Definition lift {A : Type} (o : outcome A) : M A :=
  match o with
  | Ok a => ret a
  | Raised e => raise e
  end.

Definition get_task : M task := fun s => (Ok s, s, []).
Definition put_task (s' : task) : M unit := fun _ => (Ok tt, s', []).

Definition with_corr_buff (b : list pyfloat) (s : task) : task :=
  {| corr_buff := b; err_buff := err_buff s; laser_amp_buff := laser_amp_buff s;
     pvs := pvs s; status := status s; message := message s; cycle := cycle s |}.
Definition with_err_buff (b : list pyfloat) (s : task) : task :=
  {| corr_buff := corr_buff s; err_buff := b; laser_amp_buff := laser_amp_buff s;
     pvs := pvs s; status := status s; message := message s; cycle := cycle s |}.
Definition with_laser_amp_buff (b : list pyfloat) (s : task) : task :=
  {| corr_buff := corr_buff s; err_buff := err_buff s; laser_amp_buff := b;
     pvs := pvs s; status := status s; message := message s; cycle := cycle s |}.
Definition with_pvs (p : gmap string pyfloat) (s : task) : task :=
  {| corr_buff := corr_buff s; err_buff := err_buff s;
     laser_amp_buff := laser_amp_buff s;
     pvs := p; status := status s; message := message s; cycle := cycle s |}.
Definition with_status (x : string) (s : task) : task :=
  {| corr_buff := corr_buff s; err_buff := err_buff s;
     laser_amp_buff := laser_amp_buff s;
     pvs := pvs s; status := x; message := message s; cycle := cycle s |}.
Definition with_message (x : string) (s : task) : task :=
  {| corr_buff := corr_buff s; err_buff := err_buff s;
     laser_amp_buff := laser_amp_buff s;
     pvs := pvs s; status := status s; message := x; cycle := cycle s |}.
Definition with_cycle (c : Z) (s : task) : task :=
  {| corr_buff := corr_buff s; err_buff := err_buff s;
     laser_amp_buff := laser_amp_buff s;
     pvs := pvs s; status := status s; message := message s; cycle := c |}.

Definition modify (f : task -> task) : M unit := fun s => (Ok tt, f s, []).

(** Modelled from the spec: [TaskBase], the base class of the tasks, is not
    among the sources. The spec (section 6) gives its interface: process
    variables read and written by name, [set_status], [set_message], and a
    cycle counter read by [get_cycle] and advanced by one by [step_cycle].
    A variable that was never written reads as [None]; the counter starts
    at 0 ([initial_task]). *)
Definition get_pv (name : string) : M pyval :=
  fun s => (Ok (pvs s !! name), s, []).
Definition set_pv (name : string) (v : pyfloat) : M unit :=
  modify (fun s => with_pvs (<[name := v]> (pvs s)) s).
Definition set_status (x : string) : M unit := modify (with_status x).
Definition set_message (x : string) : M unit := modify (with_message x).
Definition get_cycle : M Z := fun s => (Ok (cycle s), s, []).
Definition step_cycle : M unit := modify (fun s => with_cycle (cycle s + 1) s).

(** [int(x)]: truncation toward zero; NaN and [None] are rejected. *)
Definition int_of_float (a : pyfloat) : outcome Z :=
  match a with
  | Fin q => Ok (Z.quot (Qnum q) (Zpos (Qden q)))
  | NaN => Raised (ValueError "cannot convert float NaN to integer")
  end.

Definition int_of_val (v : pyval) : outcome Z :=
  match v with
  | Some a => int_of_float a
  | None => Raised (TypeError "int() argument must be a string, a bytes-like object or a real number, not 'NoneType'")
  end.

(** [np.max(w)]: raises on an empty array. *)
Definition np_max (w : list pyfloat) : outcome pyfloat :=
  match w with
  | [] => Raised (ValueError "zero-size array to reduction operation maximum which has no identity")
  | a :: w' => Ok (max_from a w')
  end.

Definition py_false : pyval := Some (of_Z 0).

(** The task when [run] starts: [initialize] has emptied the buffers
    (lines 36-39 of [laser_synch_task.py]); the process variables hold
    whatever they were created with. *)
Definition initial_task (p : gmap string pyfloat) : task :=
  {| corr_buff := []; err_buff := []; laser_amp_buff := [];
     pvs := p; status := "INIT"; message := ""; cycle := 0 |}.

(* ===================================================================== *)
(** ** [LaserSynchTask]                                                   *)
(* ===================================================================== *)

Module LaserSynch.

Definition pv_of (prefix suffix : string) : string := prefix +:+ suffix.

(** Lines 99-102: the PLL status. *)
Definition read_pll (cfg : config) (inp : cycle_inputs) : M pyval :=
  if nonempty (prefix_redpitaya cfg)
  then caget (in_pll_status inp)
  else ret py_false.

(** Lines 107-111. *)
Definition reset_average : M unit :=
  r <- get_pv "AVG_RESET" ;;
  if truth r then
    modify (with_corr_buff []) ;;
    set_pv "AVG_RESET" (of_Z 0) ;;
    log Info "Average buffer reset"
  else ret tt.

(** Lines 113-133: the correction waveform, its mean and its window. *)
Definition acquire_correction (cfg : config) (inp : cycle_inputs) : M unit :=
  if nonempty (prefix_redpitaya cfg) then
    caput (pv_of (prefix_redpitaya cfg) ":START_SS_ACQ_CMD") (PutNum (of_Z 1)) ;;
    wave_corr <- caget (in_wave_corr inp) ;;
    match wave_corr with
    | Some w =>
        a <- get_pv "AVG_START" ;;
        avg_start <- lift (int_of_float (or_default a (of_Z 0))) ;;
        b <- get_pv "AVG_STOP" ;;
        avg_stop <- lift (int_of_float
                            (or_default b (of_Z (Z.of_nat (length w))))) ;;
        let corr_value := mean (slice w avg_start (avg_stop + 1)) in
        set_pv "CORR" corr_value ;;
        modify (fun s =>
          with_corr_buff (push_evict (avg_num cfg) (corr_buff s) corr_value) s) ;;
        s <- get_task ;;
        set_pv "CORR_AVG" (mean (corr_buff s))
    | None => ret tt
    end
  else ret tt.

(** Lines 135-141. *)
Definition update_laser_amp (cfg : config) (inp : cycle_inputs) : M unit :=
  if nonempty (pv_laser_amp_llrf cfg) then
    laser_amp <- caget (in_laser_amp inp) ;;
    match laser_amp with
    | Some a =>
        modify (fun s =>
          with_laser_amp_buff
            (push_evict (interlock_buff_length cfg) (laser_amp_buff s) a) s)
    | None => ret tt
    end
  else ret tt.

(** Lines 143-149. *)
Definition update_err (cfg : config) (inp : cycle_inputs) : M unit :=
  if nonempty (prefix_redpitaya cfg) then
    wave_err <- caget (in_wave_err inp) ;;
    match wave_err with
    | Some w =>
        e <- lift (np_max w) ;;
        modify (fun s =>
          with_err_buff
            (push_evict (interlock_buff_length cfg) (err_buff s) e) s)
    | None => ret tt
    end
  else ret tt.

(** Lines 99-149: everything before the interlock. The result is the local
    variable [pll_on]. *)
Definition acquire (cfg : config) (inp : cycle_inputs) : M pyval :=
  pll_on <- read_pll cfg inp ;;
  n <- lift (int_of_val pll_on) ;;
  set_pv "PLL_ON" (of_Z n) ;;
  reset_average ;;
  acquire_correction cfg inp ;;
  update_laser_amp cfg inp ;;
  update_err cfg inp ;;
  ret pll_on.

(** The thresholds as lines 153-154 and 172-174 compute them. *)
Definition pll_err_tsh (s : task) : pyfloat :=
  or_default (pvs s !! "PLL_ERR_TSH") (Fin 1).
Definition laser_amp_tsh (s : task) : pyfloat :=
  or_default (pvs s !! "LASER_AMP_TSH") (Fin 0).
Definition corr_avg (s : task) : pyfloat :=
  or_default (pvs s !! "CORR_AVG") (Fin 0).
Definition tracking_tsh (s : task) : pyfloat :=
  or_default (pvs s !! "TRACKING_TSH") (Fin (1 # 10)).
Definition tracking_step (s : task) : pyfloat :=
  or_default (pvs s !! "TRACKING_STEP") (Fin (1 # 100)).

(** [sum(1 for x in buf if p x)]. *)
Definition count (p : pyfloat -> bool) (buf : list pyfloat) : Z :=
  Z.of_nat (length (List.filter p buf)).

(** Lines 156-159: the two counts and the test on them. *)
Definition interlock_condition (cfg : config) (s : task) : bool :=
  let err_count := count (fun e => fgt e (pll_err_tsh s)) (err_buff s) in
  let amp_count := count (fun a => flt a (laser_amp_tsh s)) (laser_amp_buff s) in
  (err_count =? interlock_buff_length cfg)
  || (amp_count =? interlock_buff_length cfg).

Definition interlock_text : string := "Interlock triggered - PLL turned OFF".

(** Lines 151-163. The result is [pll_on] after the block. *)
Definition interlock (cfg : config) (pll_on : pyval) : M pyval :=
  if truth pll_on then
    s <- get_task ;;
    if interlock_condition cfg s then
      (if nonempty (prefix_redpitaya cfg)
       then caput (pv_of (prefix_redpitaya cfg) ":DIGITAL_P4_STATE_CMD")
                  (PutStr "0")
       else ret tt) ;;
      log Warning interlock_text ;;
      ret py_false
    else ret pll_on
  else ret pll_on.

(** Line 177. *)
Definition step_value (s : task) : pyfloat :=
  if fgt (corr_avg s) (Fin 0) then tracking_step s else fneg (tracking_step s).

(** Lines 165-179. The result is the local variable [tracking_on]. *)
Definition tracking (cfg : config) (pll_on : pyval) : M pyval :=
  (if negb (truth pll_on) then set_pv "TRACKING_ON" (of_Z 0) else ret tt) ;;
  tracking_on <- get_pv "TRACKING_ON" ;;
  (if truth tracking_on then
     s <- get_task ;;
     if fgt (fabs (corr_avg s)) (tracking_tsh s) && nonempty (prefix_motor cfg)
     then
       caput (pv_of (prefix_motor cfg) ":m0.RLV") (PutStrOf (step_value s)) ;;
       log_num Debug "Tracking: moving motor by " (step_value s)
     else ret tt
   else ret tt) ;;
  ret tracking_on.

Definition status_text (pll_on tracking_on : pyval) : string :=
  "PLL:" +:+ (if truth pll_on then "ON" else "OFF") +:+
  " Track:" +:+ (if truth tracking_on then "ON" else "OFF").

(** Lines 151-182: interlock, tracking, status message. *)
Definition decide (cfg : config) (pll_on : pyval) : M unit :=
  pll_on' <- interlock cfg pll_on ;;
  tracking_on <- tracking cfg pll_on' ;;
  set_message (status_text pll_on' tracking_on).

(** [_process_cycle] (lines 97-182). *)
Definition process_cycle (cfg : config) (inp : cycle_inputs) : M unit :=
  pll_on <- acquire cfg inp ;;
  decide cfg pll_on.

(** The body of the [while] loop of [run] (lines 79-95). *)
Definition loop_body (cfg : config) (inp : cycle_inputs) : M unit :=
  enable <- get_pv "ENABLE" ;;
  if negb (truth enable) then
    log Debug "Task disabled, skipping cycle" ;;
    sleep (loop_period cfg)
  else
    try_except
      (process_cycle cfg inp ;; step_cycle)
      (fun e =>
         log Error ("Error in processing cycle: " +:+ exn_str e) ;;
         set_status "ERROR" ;;
         set_message ("Error: " +:+ exn_str e)) ;;
    sleep (loop_period cfg).

(** The task after the handler of lines 89-92. *)
Definition error_state (e : exn) (s : task) : task :=
  with_message ("Error: " +:+ exn_str e) (with_status "ERROR" s).

(** One turn of the loop as the world sees it: whether [self.running]
    still holds when the [while] test is made, the writes made to process
    variables from outside since the last turn, and what the reads of
    this turn give. *)
Record tick : Type := {
  tick_running : bool;
  tick_writes : list (string * pyfloat);
  tick_inputs : cycle_inputs
}.

Definition external_writes (ws : list (string * pyfloat)) : M unit :=
  modify (fun s =>
    with_pvs (fold_left (fun p w => <[w.1 := w.2]> p) ws (pvs s)) s).

(** [run] (lines 74-95) over the turns the world offers; it leaves the
    loop at the first turn where [self.running] is false. *)
Fixpoint run_loop (cfg : config) (ticks : list tick) : M unit :=
  match ticks with
  | [] => ret tt
  | t :: ticks' =>
      external_writes (tick_writes t) ;;
      if tick_running t
      then loop_body cfg (tick_inputs t) ;; run_loop cfg ticks'
      else ret tt
  end.

Definition run (cfg : config) (ticks : list tick) : M unit :=
  log Info "Starting laser synch task execution" ;;
  run_loop cfg ticks.

(** *** What a trace shows *)

Definition is_interlock_log (e : event) : bool :=
  match e with
  | Log Warning text => String.eqb text interlock_text
  | _ => false
  end.

(** The interlock engages somewhere in the trace: the branch of lines
    160-163 was taken. *)
Definition engages (t : list event) : bool := existsb is_interlock_log t.

(** The motor steps issued (line 178): the only [caput] of [str(x)]. *)
Definition step_of (e : event) : option pyfloat :=
  match e with
  | Caput _ (PutStrOf a) => Some a
  | _ => None
  end.

Definition motor_steps (t : list event) : list pyfloat :=
  omap step_of t.

(** The process variable that switches the PLL, and everything written
    to it. *)
Definition pin (cfg : config) : string :=
  pv_of (prefix_redpitaya cfg) ":DIGITAL_P4_STATE_CMD".

Definition pin_write (cfg : config) (e : event) : option putval :=
  match e with
  | Caput pv v => if String.eqb pv (pin cfg) then Some v else None
  | _ => None
  end.

(** The task once a cycle has found or forced the PLL off: tracking is
    switched off (line 167) and the message says so (line 182). *)
Definition off_state (s : task) : task :=
  with_message "PLL:OFF Track:OFF"
    (with_pvs (<["TRACKING_ON" := of_Z 0]> (pvs s)) s).

Definition pin_writes (cfg : config) (t : list event) : list putval :=
  omap (pin_write cfg) t.

(** The process variables that lines 99-149 write. *)
Definition acquire_writes : list string :=
  ["PLL_ON"; "AVG_RESET"; "CORR"; "CORR_AVG"].

(** An event that is neither the interlock engaging, nor a motor step, nor
    a write to the pin; one that is neither of the last two; one that writes
    to the pin nothing but "0". *)
Definition quiet (cfg : config) (e : event) : Prop :=
  is_interlock_log e = false /\ step_of e = None /\ pin_write cfg e = None.



(** The subsystem reports itself active: the status read of line 102 is
    made and gives a true value. *)
Definition reports_active (cfg : config) (inp : cycle_inputs) : bool :=
  nonempty (prefix_redpitaya cfg) &&
  match in_pll_status inp with
  | Returned v => truth v
  | Failed _ => false
  end.

(** The sample that a cycle appends to the error window (lines 144-147)
    and to the amplitude window (lines 136-139), if it gets there. *)
Definition err_sample (cfg : config) (inp : cycle_inputs) : option pyfloat :=
  if nonempty (prefix_redpitaya cfg) then
    match in_wave_err inp with
    | Returned (Some w) =>
        match np_max w with
        | Ok e => Some e
        | Raised _ => None
        end
    | _ => None
    end
  else None.

Definition amp_sample (cfg : config) (inp : cycle_inputs) : option pyfloat :=
  if nonempty (pv_laser_amp_llrf cfg) then
    match in_laser_amp inp with
    | Returned (Some a) => Some a
    | _ => None
    end
  else None.




(** Consecutive cycles, each followed by [step_cycle] as in the [try] block
    of [run] (lines 86-88), with nothing written from outside in between. *)
Fixpoint cycles (cfg : config) (inps : list cycle_inputs) : M unit :=
  match inps with
  | [] => ret tt
  | inp :: inps' => process_cycle cfg inp ;; step_cycle ;; cycles cfg inps'
  end.

(** The length of a window never exceeds its bound (no window holds
    anything when the bound is negative). *)
Definition bounded (n : Z) (buf : list pyfloat) : Prop :=
  Z.of_nat (length buf) <= Z.max 0 n.

Definition windows_bounded (cfg : config) (s : task) : Prop :=
  bounded (avg_num cfg) (corr_buff s)
  /\ bounded (interlock_buff_length cfg) (err_buff s)
  /\ bounded (interlock_buff_length cfg) (laser_amp_buff s).

(** The states the task can be in at the top of the loop: after
    [initialize], after a turn of the loop, after a write from outside. *)
Inductive reachable (cfg : config) : task -> Prop :=
| reach_init p : reachable cfg (initial_task p)
| reach_turn s inp :
    reachable cfg s -> reachable cfg (state_of (loop_body cfg inp s))
| reach_write s ws :
    reachable cfg s -> reachable cfg (state_of (external_writes ws s)).

End LaserSynch.

(* ===================================================================== *)
(** ** [CheckMotorMovement]: the movement callback                        *)
(* ===================================================================== *)

Module MotorCheck.

(** A switch-off device found by [initialize] (lines 43-48): its name and
    what [sw.set(0)] does, return or raise. *)
Record switch : Type := {
  sw_name : string;
  sw_set_raises : option exn
}.

(** Lines 73-77: one turn of the [for] loop over [self.switches]. *)
Definition set_switch (sw : switch) : M unit :=
  try_except
    ((match sw_set_raises sw with
      | None => emit (DeviceSet (sw_name sw) (of_Z 0))
      | Some e => raise e
      end) ;;
     log Info ("Switchoff device " +:+ sw_name sw
               +:+ " set to 0 (CLOSE) due to motor movement."))
    (fun e =>
       log Error ("Error setting switchoff device " +:+ sw_name sw
                  +:+ ": " +:+ exn_str e)).

Fixpoint set_switches (sws : list switch) : M unit :=
  match sws with
  | [] => ret tt
  | sw :: sws' => set_switch sw ;; set_switches sws'
  end.

(** [motor_moved_callback] (lines 65-77). *)
Definition motor_moved_callback (switches : list switch)
    (motor_name : string) (position : pyval) : M unit :=
  c <- get_cycle ;;
  if c >? 10 then
    log_val Info ("Motor " +:+ motor_name +:+ " moved to position ") position ;;
    enable <- get_pv "ENABLE" ;;
    if negb (truth enable) then ret tt
    else set_switches switches
  else ret tt.

(** The task after [n] turns of [run] that reached [step_cycle] (line 107).
    Only the counter is followed; [_monitor_motors] is not modelled. *)
Fixpoint after_cycles (n : nat) (s : task) : task :=
  match n with
  | O => s
  | S n' => state_of (step_cycle (after_cycles n' s))
  end.

(** The devices the callback set to 0. *)
Definition device_of (e : event) : option string :=
  match e with
  | DeviceSet d _ => Some d
  | _ => None
  end.

Definition devices_set (t : list event) : list string := omap device_of t.

(** The switches whose [set(0)] returns. *)
Definition accepts (sw : switch) : bool :=
  match sw_set_raises sw with
  | None => true
  | Some _ => false
  end.

End MotorCheck.

(* ===================================================================== *)
(** ** Reasoning about computations                                       *)
(* ===================================================================== *)

(** The final state is related to the initial one, whether the computation
    ends normally or raises. *)
Definition keeps {A : Type} (R : relation task) (m : M A) : Prop :=
  forall s, R s (state_of (m s)).

(** Every event emitted satisfies [P]. *)
Definition emits {A : Type} (P : event -> Prop) (m : M A) : Prop :=
  forall s, Forall P (trace_of (m s)).

(** The computation never raises. *)
Definition total {A : Type} (m : M A) : Prop :=
  forall s, exists a, result_of (m s) = Ok a.

(** A value returned satisfies [P]. *)
Definition yields {A : Type} (P : A -> Prop) (m : M A) : Prop :=
  forall s a, result_of (m s) = Ok a -> P a.

(** The computation only reads the state and emits nothing. *)
Definition silent {A : Type} (m : M A) : Prop :=
  forall s, state_of (m s) = s /\ trace_of (m s) = [].

(** A function of the state that a computation leaves as it was. *)
Definition unchanged {X : Type} (f : task -> X) : relation task :=
  fun s s' => f s' = f s.

(** A property of the state that a computation maintains. *)
Definition maintains (I : task -> Prop) : relation task :=
  fun s s' => I s -> I s'.

(** The final state is related to the initial one whenever the computation
    raises. *)
Definition keeps_if_raised {A : Type} (R : relation task) (m : M A) : Prop :=
  forall s e, result_of (m s) = Raised e -> R s (state_of (m s)).

(* ===================================================================== *)
(** ** Scenarios                                                          *)
(* ===================================================================== *)

Module Scenario.
Import LaserSynch.

(** A RedPitaya, a motor and an amplitude signal; windows of two samples. *)
Definition cfg2 : config :=
  {| loop_period := 0.2; avg_num := 2; interlock_buff_length := 2;
     prefix_redpitaya := "RP"; prefix_motor := "MOT";
     pv_laser_amp_llrf := "LLRF:AMP" |}.


(** Enabled, tracking on, error threshold 2, every other constant left to
    its default. *)
Definition pvs0 : gmap string pyfloat :=
  <["ENABLE" := Fin 1]> (<["TRACKING_ON" := Fin 1]> (<["PLL_ERR_TSH" := Fin 2]> ∅)).

Definition start : task := initial_task pvs0.

(** PLL on, correction waveform of mean [c], amplitude 5, error waveform
    of maximum [e]. *)
Definition reads (c e : Q) : cycle_inputs :=
  {| in_pll_status := Returned (Some (Fin 1));
     in_wave_corr := Returned (Some [Fin c; Fin c]);
     in_laser_amp := Returned (Some (Fin 5));
     in_wave_err := Returned (Some [Fin 0; Fin e]) |}.

(** The same reads with the status reporting the PLL off. *)
Definition reads_off (c e : Q) : cycle_inputs :=
  {| in_pll_status := Returned (Some (Fin 0));
     in_wave_corr := Returned (Some [Fin c; Fin c]);
     in_laser_amp := Returned (Some (Fin 5));
     in_wave_err := Returned (Some [Fin 0; Fin e]) |}.


(** The error waveform cannot be read: [caget] raises. *)
Definition reads_err_fails : cycle_inputs :=
  {| in_pll_status := Returned (Some (Fin 1));
     in_wave_corr := Returned (Some [Fin 1; Fin 1]);
     in_laser_amp := Returned (Some (Fin 5));
     in_wave_err := Failed (CaError "IN1_DATA_MONITOR: read failed") |}.


Definition turn (inp : cycle_inputs) : tick :=
  {| tick_running := true; tick_writes := []; tick_inputs := inp |}.


(** Windows of five samples, the error threshold left to its default of
    1.0, and an error window holding [samples]. *)
Definition cfg5 : config :=
  {| loop_period := 0.2; avg_num := 10; interlock_buff_length := 5;
     prefix_redpitaya := "RP"; prefix_motor := "MOT";
     pv_laser_amp_llrf := "LLRF:AMP" |}.

Definition holding (samples : list Q) : task :=
  with_err_buff (map Fin samples) (initial_task ∅).

(** One switch-off device that accepts [set(0)]. *)
Definition shutter : MotorCheck.switch :=
  {| MotorCheck.sw_name := "SHUTTER"; MotorCheck.sw_set_raises := None |}.

End Scenario.

(* ===================================================================== *)
(** ** The rest of [LaserSynchTask]                                       *)
(* ===================================================================== *)

Module LaserSynchMore.
Import LaserSynch.

Definition is_ok {A : Type} (o : outcome A) : bool :=
  match o with
  | Ok _ => true
  | Raised _ => false
  end.

(** Lines 120-123: the value computed from a correction waveform, with the
    averaging range read from the process variables. *)
Definition corr_value (s : task) (w : list pyfloat) : outcome pyfloat :=
  match int_of_float (or_default (pvs s !! "AVG_START") (of_Z 0)) with
  | Ok avg_start =>
      match int_of_float
              (or_default (pvs s !! "AVG_STOP") (of_Z (Z.of_nat (length w)))) with
      | Ok avg_stop => Ok (mean (slice w avg_start (avg_stop + 1)))
      | Raised e => Raised e
      end
  | Raised e => Raised e
  end.

(** The correction window as line 109 leaves it. *)
Definition reset_window (s : task) : list pyfloat :=
  if truth (pvs s !! "AVG_RESET") then [] else corr_buff s.

(** The correction waveform that a cycle gets to process (lines 114-118). *)
Definition corr_waveform (cfg : config) (inp : cycle_inputs)
  : option (list pyfloat) :=
  if nonempty (prefix_redpitaya cfg) then
    match in_wave_corr inp with
    | Returned (Some w) => Some w
    | _ => None
    end
  else None.

(** The value of [pll_on] after line 102, when the read returns. *)
Definition status_value (cfg : config) (inp : cycle_inputs) : option pyval :=
  if nonempty (prefix_redpitaya cfg) then
    match in_pll_status inp with
    | Returned v => Some v
    | Failed _ => None
    end
  else Some py_false.

(** An event is a [caput]. *)
Definition is_caput (e : event) : bool :=
  match e with
  | Caput _ _ => true
  | _ => false
  end.

(** No write from outside touches the process variable [name]. *)
Definition leaves (name : string) (tk : tick) : Prop :=
  Forall (fun w => w.1 <> name) (tick_writes tk).

(** What a [caput] that may fail does: the write, or the exception. *)
Definition caput_or_raise (fails : string -> option exn)
    (pv : string) (v : putval) : M unit :=
  match fails pv with
  | None => caput pv v
  | Some e => raise e
  end.

Fixpoint caput_all (fails : string -> option exn)
    (cmds : list (string * putval)) : M unit :=
  match cmds with
  | [] => ret tt
  | (pv, v) :: cmds' => caput_or_raise fails pv v ;; caput_all fails cmds'
  end.

(** The eight commands of [_init_redpitaya] (lines 54-61), in order. *)
Definition redpitaya_commands (cfg : config) : list (string * putval) :=
  [ (pv_of (prefix_redpitaya cfg) ":RESET_ACQ_CMD", PutStr "1");
    (pv_of (prefix_redpitaya cfg) ":ACQ_TRIGGER_SRC_CMD", PutStr "NOW");
    (pv_of (prefix_redpitaya cfg) ":IN2_GAIN_CMD", PutStr "High");
    (pv_of (prefix_redpitaya cfg) ":ACQ_AVERAGING_CMD", PutStr "Off");
    (pv_of (prefix_redpitaya cfg) ":DIGITAL_P4_DIR_CMD", PutStr "1");
    (pv_of (prefix_redpitaya cfg) ":DIGITAL_P4_STATE_CMD", PutStr "0");
    (pv_of (prefix_redpitaya cfg) ":OUT1_FREQ_SP", PutStr "0");
    (pv_of (prefix_redpitaya cfg) ":OUT1_ENABLE_CMD", PutStr "1") ].

(** [_init_redpitaya] (lines 51-64). *)
Definition init_redpitaya (cfg : config) (fails : string -> option exn) : M unit :=
  try_except
    (caput_all fails (redpitaya_commands cfg) ;;
     log Info "RedPitaya initialized")
    (fun e => log Error ("Failed to initialize RedPitaya: " +:+ exn_str e)).

(** [_init_motor] (lines 66-72). *)
Definition init_motor (cfg : config) (fails : string -> option exn) : M unit :=
  try_except
    (caput_or_raise fails (pv_of (prefix_motor cfg) ":m0.HLM") (PutStr "2.6") ;;
     log Info "Motor initialized")
    (fun e => log Error ("Failed to initialize motor: " +:+ exn_str e)).

(** [initialize] (lines 22-49), the parameters being already in [cfg]. The
    two last log lines render numbers (the first is followed by " s"). *)
Definition initialize (cfg : config) (fails : string -> option exn) : M unit :=
  log Info "Initializing laser synch task" ;;
  modify (with_corr_buff []) ;;
  modify (with_err_buff []) ;;
  modify (with_laser_amp_buff []) ;;
  (if nonempty (prefix_redpitaya cfg) then init_redpitaya cfg fails else ret tt) ;;
  (if nonempty (prefix_motor cfg) then init_motor cfg fails else ret tt) ;;
  log_num Info "Loop period: " (Fin (loop_period cfg)) ;;
  log_num Info "Average number: " (of_Z (avg_num cfg)).

(** The task with its three windows emptied (lines 37-39). *)
Definition emptied (s : task) : task :=
  with_laser_amp_buff [] (with_err_buff [] (with_corr_buff [] s)).

(** [cleanup] (lines 184-196). *)
Definition cleanup (cfg : config) (fails : string -> option exn) : M unit :=
  log Info "Cleaning up laser synch task" ;;
  (if nonempty (prefix_redpitaya cfg) then
     try_except
       (caput_or_raise fails (pin cfg) (PutStr "0"))
       (fun e => log Error ("Error turning off PLL: " +:+ exn_str e))
   else ret tt) ;;
  set_status "END" ;;
  set_message "Stopped".

(** The [caput]s of a trace, in order. *)
Definition caput_of (e : event) : option (string * putval) :=
  match e with
  | Caput pv v => Some (pv, v)
  | _ => None
  end.

Definition caputs (t : list event) : list (string * putval) := omap caput_of t.

(** The commands of a list that come before the first one that fails. *)
Fixpoint until_failure (fails : string -> option exn)
    (cmds : list (string * putval)) : list (string * putval) :=
  match cmds with
  | [] => []
  | (pv, v) :: cmds' =>
      match fails pv with
      | None => (pv, v) :: until_failure fails cmds'
      | Some _ => []
      end
  end.

Definition works (fails : string -> option exn) (pv : string) : bool :=
  match fails pv with
  | None => true
  | Some _ => false
  end.

End LaserSynchMore.

Module ScenarioMore.
Import LaserSynch Scenario.

(** The operator has asked for an average reset; the correction window
    holds two older values. *)
Definition start_reset_requested : task :=
  with_corr_buff [Fin 7; Fin 8]
    (initial_task (<["AVG_RESET" := Fin 1]> pvs0)).

(** The averaging range starts beyond the end of the waveform. *)
Definition start_range_beyond : task :=
  initial_task (<["AVG_START" := Fin 5]> pvs0).

End ScenarioMore.

Module ScenarioEdges.
Import LaserSynch Scenario.

(** The status read returns [None]. *)
Definition reads_no_status : cycle_inputs :=
  {| in_pll_status := Returned None;
     in_wave_corr := Returned (Some [Fin 1; Fin 1]);
     in_laser_amp := Returned (Some (Fin 5));
     in_wave_err := Returned (Some [Fin 0; Fin 3]) |}.

(** The error waveform is empty. *)
Definition reads_empty_err : cycle_inputs :=
  {| in_pll_status := Returned (Some (Fin 1));
     in_wave_corr := Returned (Some [Fin 1; Fin 1]);
     in_laser_amp := Returned (Some (Fin 5));
     in_wave_err := Returned (Some []) |}.

(** No RedPitaya: only the amplitude signal is configured. *)
Definition cfg_amp_only : config :=
  {| loop_period := 0.2; avg_num := 2; interlock_buff_length := 2;
     prefix_redpitaya := ""; prefix_motor := "MOT";
     pv_laser_amp_llrf := "LLRF:AMP" |}.

(** Interlock windows of length zero. *)
Definition cfg_zero_length : config :=
  {| loop_period := 0.2; avg_num := 2; interlock_buff_length := 0;
     prefix_redpitaya := "RP"; prefix_motor := "MOT";
     pv_laser_amp_llrf := "LLRF:AMP" |}.

(** Every [caput] to the RedPitaya acquisition trigger fails, nothing else
    does. *)
Definition trigger_fails (pv : string) : option exn :=
  if String.eqb pv "RP:ACQ_TRIGGER_SRC_CMD"
  then Some (CaError "ACQ_TRIGGER_SRC_CMD: write failed") else None.

End ScenarioEdges.

(* ===================================================================== *)
(** ** The rest of [CheckMotorMovement]                                   *)
(* ===================================================================== *)

Module MotorMonitor.
Import MotorCheck.

(** *** [initialize] (lines 19-63) *)

(** [d[key] = value] on the keys of a dictionary: a new key goes last, a
    key already there keeps its place. *)
Definition dict_add (key : string) (keys : list string) : list string :=
  if bool_decide (key ∈ keys) then keys else keys ++ [key].

(** The loops of lines 35-41 and 43-48: the names for which [get_device]
    finds a device, with the log line of each. *)
Fixpoint find_devices (what : string) (has_device : string -> bool)
    (requested : list string) (keys : list string) (t : list event)
  : list string * list event :=
  match requested with
  | [] => (keys, t)
  | name :: requested' =>
      if has_device name
      then find_devices what has_device requested' (dict_add name keys)
             (t ++ [Log Info ("Found " +:+ what +:+ " device: " +:+ name)])
      else find_devices what has_device requested' keys t
  end.

(** What [initialize] leaves in the task object: the keys of
    [self.motors] and of [self.switches], in order, and
    [self.previous_moving_state]. *)
Record setup : Type := {
  motors : list string;
  switches : list string;
  previous_moving_state : gmap string bool
}.

(** [{name: False for name in motors}] (lines 59-61). *)
Definition all_stopped (names : list string) : gmap string bool :=
  fold_left (fun m name => <[name := false]> m) names ∅.

(** [initialize]. [has_device] tells for which names [get_device] gives a
    device. The last log line carries the number of motors beside its
    text. *)
Definition initialize (has_device : string -> bool)
    (motors_list switchoff_names : list string) : setup * list event :=
  let t0 := [Log Info "Initializing motor control task"] in
  let '(ms, sws, t1) :=
    match motors_list with
    | [] =>
        ([], [],
         t0 ++ [Log Warning "No motors provided; task will not monitor any motors."])
    | _ =>
        let '(ms, tm) := find_devices "motor" has_device motors_list [] t0 in
        let '(sws, ts) := find_devices "switchoff" has_device switchoff_names [] tm in
        (ms, sws, ts)
    end in
  let t2 := match ms with
            | [] => t1 ++ [Log Warning "No motor devices found!"]
            | _ => t1
            end in
  ({| motors := ms; switches := sws; previous_moving_state := all_stopped ms |},
   t2 ++ [LogNum Info "Initialized with motors: " (of_Z (Z.of_nat (length ms)))]).

(** *** [_monitor_motors] (lines 116-168) *)

(** What the attributes of one motor give in one pass: [moving] and
    [position] are absent, or give a value, or raise when called;
    [user_readback] is absent, or its [get] gives a value or raises. The
    value of [moving] is taken as a boolean. *)
Record probe : Type := {
  probe_moving : option (read bool);
  probe_position : option (read pyval);
  probe_readback : option (read pyval)
}.

(** What the [try] block of lines 119-165 can raise before it changes
    anything: an exception of a probe, or the [KeyError] of
    [self.previous_moving_state[motor_name]]. *)
Inductive monitor_error : Type :=
| ProbeError (e : exn)
| KeyError (key : string).

(** [str(e)]. *)
Definition monitor_error_str (e : monitor_error) : string :=
  match e with
  | ProbeError e0 => exn_str e0
  | KeyError key => "'" +:+ key +:+ "'"
  end.

(** Lines 121-146, as far as they read: [is_moving], [position] and the
    previous state of the motor. *)
Definition read_motor (name : string) (p : probe) (prev : gmap string bool)
  : monitor_error + (bool * pyval * bool) :=
  match (match probe_moving p with
         | None => Returned false
         | Some r => r
         end) with
  | Failed e => inl (ProbeError e)
  | Returned is_moving =>
      match (match probe_position p with
             | Some r => r
             | None =>
                 match probe_readback p with
                 | Some (Returned v) => Returned v
                 | Some (Failed _) => Returned None
                 | None => Returned None
                 end
             end) with
      | Failed e => inl (ProbeError e)
      | Returned position =>
          match prev !! name with
          | None => inl (KeyError name)
          | Some was => inr (is_moving, position, was)
          end
      end
  end.

(** Lines 141-151. *)
Definition transition_log (name : string) (is_moving was : bool)
    (position : pyval) : M unit :=
  if is_moving && negb was then
    log_val Info ("Motor " +:+ name +:+ " started moving - Position: ") position
  else if negb is_moving && was then
    log_val Info ("Motor " +:+ name +:+ " stopped - Final position: ") position
  else if is_moving then
    log_val Info ("Motor " +:+ name +:+ " is moving - Current position: ") position
  else ret tt.

(** [set_pv(name, v)] for a value that may be [None]: a variable holding
    [None] reads like one never written. *)
Definition set_pv_val (name : string) (v : pyval) : M unit :=
  match v with
  | Some a => set_pv name a
  | None => modify (fun s => with_pvs (delete name (pvs s)) s)
  end.

Definition of_bool (b : bool) : pyfloat := of_Z (if b then 1 else 0).

(** One turn of the [for] loop of line 118. [declared] tells which names
    are in [self.pvs]. The result is [self.previous_moving_state]. As in
    the rest of the model, [set_pv] and the logger do not raise, so what
    the [except] of line 167 catches comes from the reads. *)
Definition monitor_motor (declared : string -> bool) (name : string)
    (p : probe) (prev : gmap string bool) : M (gmap string bool) :=
  match read_motor name p prev with
  | inl e =>
      log Error ("Error monitoring " +:+ name +:+ ": " +:+ monitor_error_str e) ;;
      ret prev
  | inr (is_moving, position, was) =>
      transition_log name is_moving was position ;;
      (if declared (name +:+ "_POS")
       then set_pv_val (name +:+ "_POS") position else ret tt) ;;
      (if declared (name +:+ "_MOVING")
       then set_pv (name +:+ "_MOVING") (of_bool is_moving) else ret tt) ;;
      set_pv "MOVING" (of_bool is_moving) ;;
      ret (<[name := is_moving]> prev)
  end.

(** [_monitor_motors]: the motors in the order of [self.motors], each with
    what its attributes give in this pass. *)
Fixpoint monitor_motors (declared : string -> bool)
    (probes : list (string * probe)) (prev : gmap string bool)
  : M (gmap string bool) :=
  match probes with
  | [] => ret prev
  | (name, p) :: probes' =>
      prev' <- monitor_motor declared name p prev ;;
      monitor_motors declared probes' prev'
  end.

(** The body of the [while] loop of [run], lines 98-111. The two [Sleep]
    calls (lines 101 and 114) are left out: their argument
    [1.0 / self.update_rate] is not modelled. *)
Definition monitor_turn (declared : string -> bool)
    (probes : list (string * probe)) (prev : gmap string bool)
  : M (gmap string bool) :=
  enable <- get_pv "ENABLE" ;;
  if negb (truth enable) then
    log Debug "Task disabled, skipping cycle" ;;
    ret prev
  else
    try_except
      (prev' <- monitor_motors declared probes prev ;;
       step_cycle ;;
       ret prev')
      (fun e =>
         log Error ("Error in processing cycle: " +:+ exn_str e) ;;
         set_status "ERROR" ;;
         set_message ("Error: " +:+ exn_str e) ;;
         ret prev).

(** Consecutive turns, each with its own probes. *)
Fixpoint monitor_turns (declared : string -> bool)
    (passes : list (list (string * probe))) (prev : gmap string bool)
  : M (gmap string bool) :=
  match passes with
  | [] => ret prev
  | probes :: passes' =>
      prev' <- monitor_turn declared probes prev ;;
      monitor_turns declared passes' prev'
  end.

(** A motor whose attributes were read in this pass, with the state
    read. *)
Definition motor_read (prev : gmap string bool) (np : string * probe)
  : option bool :=
  match read_motor np.1 np.2 prev with
  | inr (is_moving, _, _) => Some is_moving
  | inl _ => None
  end.

End MotorMonitor.

Module ScenarioMotors.
Import MotorMonitor.

Definition moving_motor : probe :=
  {| probe_moving := Some (Returned true);
     probe_position := Some (Returned (Some (Fin 3)));
     probe_readback := None |}.

Definition idle_motor : probe :=
  {| probe_moving := Some (Returned false);
     probe_position := Some (Returned (Some (Fin 0)));
     probe_readback := None |}.

Definition broken_motor : probe :=
  {| probe_moving := Some (Failed (CaError "moving: read failed"));
     probe_position := None;
     probe_readback := None |}.

Definition only_stage (name : string) : bool := String.eqb name "stage".

(** Three motors in the order of [self.motors]: one moving, one stopped,
    one whose [moving] raises; none was moving at the pass before. *)
Definition scene : list (string * probe) :=
  [("stage", moving_motor); ("mirror", idle_motor); ("iris", broken_motor)].

Definition tracked : gmap string bool :=
  all_stopped ["stage"; "mirror"; "iris"].

Definition undeclared (name : string) : bool := false.

End ScenarioMotors.
(* ===================================================================== *)
(** * Properties                                                          *)
(* ===================================================================== *)

(** ** The sliding windows *)

Section SlidingWindow.
Context {A : Type}.
Implicit Types (buf xs : list A) (x : A) (n : Z).

Lemma push_evict_overflow n buf x :
  n < Z.of_nat (length buf) + 1 ->
  push_evict n buf x = tail (buf ++ [x]).
Proof.
  intros H. unfold push_evict. rewrite length_app. simpl.
  destruct (Z.gtb_spec (Z.of_nat (length buf + 1)) n); [reflexivity | lia].
Qed.

Lemma push_evict_room n buf x :
  Z.of_nat (length buf) + 1 <= n ->
  push_evict n buf x = buf ++ [x].
Proof.
  intros H. unfold push_evict. rewrite length_app. simpl.
  destruct (Z.gtb_spec (Z.of_nat (length buf + 1)) n); [lia | reflexivity].
Qed.

Lemma push_evict_last_n n buf x :
  0 <= n -> Z.of_nat (length buf) <= n ->
  push_evict n buf x = last_n (Z.to_nat n) (buf ++ [x]).
Proof.
  intros Hn Hlen. unfold last_n.
  destruct (Z_lt_le_dec n (Z.of_nat (length buf) + 1)) as [Hov | Hroom].
  - rewrite push_evict_overflow by exact Hov.
    rewrite length_app. simpl.
    replace (length buf + 1 - Z.to_nat n)%nat with 1%nat by lia.
    destruct buf; reflexivity.
  - rewrite push_evict_room by exact Hroom.
    rewrite length_app. simpl.
    replace (length buf + 1 - Z.to_nat n)%nat with 0%nat by lia.
    reflexivity.
Qed.

Lemma push_evict_length n buf x :
  0 <= n -> Z.of_nat (length buf) <= n ->
  Z.of_nat (length (push_evict n buf x)) <= n.
Proof.
  intros Hn Hlen.
  destruct (Z_lt_le_dec n (Z.of_nat (length buf) + 1)) as [Hov | Hroom].
  - rewrite push_evict_overflow by exact Hov.
    destruct buf; simpl in *; [lia |].
    rewrite length_app. simpl. lia.
  - rewrite push_evict_room by exact Hroom.
    rewrite length_app. simpl. lia.
Qed.

(** With a negative bound every push is followed by an eviction. *)
Lemma push_evict_negative n x : n < 0 -> push_evict n [] x = [].
Proof.
  intros Hn. rewrite push_evict_overflow by (simpl; lia). reflexivity.
Qed.

Lemma last_n_app_l (k : nat) (l ys : list A) :
  last_n k (last_n k l ++ ys) = last_n k (l ++ ys).
Proof.
  unfold last_n.
  rewrite <- (drop_app_le l ys) by lia.
  rewrite drop_drop. f_equal.
  rewrite length_drop, !length_app. lia.
Qed.

Lemma push_all_last_n n xs : forall buf,
  0 <= n -> Z.of_nat (length buf) <= n ->
  push_all n buf xs = last_n (Z.to_nat n) (buf ++ xs).
Proof.
  induction xs as [| x xs IH]; intros buf Hn Hlen.
  - simpl. rewrite app_nil_r. unfold last_n.
    replace (length buf - Z.to_nat n)%nat with 0%nat by lia. reflexivity.
  - unfold push_all in *. cbn [fold_left]. rewrite IH.
    + rewrite push_evict_last_n by assumption.
      rewrite last_n_app_l, <- app_assoc. reflexivity.
    + exact Hn.
    + apply push_evict_length; assumption.
Qed.

Lemma push_history_bounded n xs : forall buf,
  0 <= n -> Z.of_nat (length buf) <= n ->
  Forall (fun b => Z.of_nat (length b) <= n) (push_history n buf xs).
Proof.
  induction xs as [| x xs IH]; intros buf Hn Hlen; simpl.
  - constructor.
  - constructor.
    + apply push_evict_length; assumption.
    + apply IH; [exact Hn |]. apply push_evict_length; assumption.
Qed.

End SlidingWindow.

(** ** Rules for computations *)

Section Rules.
Context {A B : Type}.

Lemma silent_keeps (R : relation task) `{!Reflexive R} (m : M A) :
  silent m -> keeps R m.
Proof. intros H s. destruct (H s) as [-> _]. reflexivity. Qed.

Lemma silent_emits (P : event -> Prop) (m : M A) :
  silent m -> emits P m.
Proof. intros H s. destruct (H s) as [_ ->]. constructor. Qed.

Lemma silent_ret (a : A) : silent (ret a).
Proof. intros s. split; reflexivity. Qed.

Lemma silent_raise (e : exn) : silent (raise (A := A) e).
Proof. intros s. split; reflexivity. Qed.

Lemma silent_caget (r : read A) : silent (caget r).
Proof. destruct r; intros s; split; reflexivity. Qed.

Lemma silent_lift (o : outcome A) : silent (lift o).
Proof. destruct o; intros s; split; reflexivity. Qed.

Lemma bind_Ok_inv (m : M A) (f : A -> M B) s b s2 t :
  bind m f s = (Ok b, s2, t) ->
  exists a s1 t1 t2,
    m s = (Ok a, s1, t1) /\ f a s1 = (Ok b, s2, t2) /\ t = t1 ++ t2.
Proof.
  unfold bind. destruct (m s) as [[[a | e] s1] t1]; [| discriminate].
  destruct (f a s1) as [[r s2'] t2] eqn:Hf. intros [= -> -> <-].
  exists a, s1, t1, t2. auto.
Qed.

Lemma bind_Raised_inv (m : M A) (f : A -> M B) s e s2 t :
  bind m f s = (Raised e, s2, t) ->
  m s = (Raised e, s2, t) \/
  exists a s1 t1 t2,
    m s = (Ok a, s1, t1) /\ f a s1 = (Raised e, s2, t2) /\ t = t1 ++ t2.
Proof.
  unfold bind. destruct (m s) as [[[a | e'] s1] t1].
  - destruct (f a s1) as [[r s2'] t2] eqn:Hf. intros [= -> -> <-].
    right. exists a, s1, t1, t2. auto.
  - intros [= -> -> ->]. left. reflexivity.
Qed.

Lemma keeps_bind (R : relation task) `{!Transitive R} (m : M A) (f : A -> M B) :
  keeps R m -> (forall a, keeps (A := B) R (f a)) -> keeps (A := B) R (bind m f).
Proof.
  intros Hm Hf s. specialize (Hm s). unfold state_of, bind in *.
  destruct (m s) as [[[a | e] s1] t1]; simpl in *; [| exact Hm].
  specialize (Hf a s1). unfold state_of in Hf.
  destruct (f a s1) as [[r s2] t2]; simpl in *.
  etransitivity; eassumption.
Qed.

Lemma emits_bind (P : event -> Prop) (m : M A) (f : A -> M B) :
  emits P m -> (forall a, emits (A := B) P (f a)) -> emits (A := B) P (bind m f).
Proof.
  intros Hm Hf s. specialize (Hm s). unfold trace_of, bind in *.
  destruct (m s) as [[[a | e] s1] t1]; simpl in *; [| exact Hm].
  specialize (Hf a s1). unfold trace_of in Hf.
  destruct (f a s1) as [[r s2] t2]; simpl in *.
  apply Forall_app; auto.
Qed.

Lemma total_bind (m : M A) (f : A -> M B) :
  total m -> (forall a, total (A := B) (f a)) -> total (A := B) (bind m f).
Proof.
  intros Hm Hf s. destruct (Hm s) as [a Ha]. unfold result_of, bind in *.
  destruct (m s) as [[r s1] t1]; simpl in *; subst r.
  destruct (Hf a s1) as [b Hb]. unfold result_of in Hb.
  destruct (f a s1) as [[r s2] t2]; simpl in *. eauto.
Qed.

Lemma yields_bind (P : B -> Prop) (m : M A) (f : A -> M B) :
  (forall a, yields (A := B) P (f a)) -> yields (A := B) P (bind m f).
Proof.
  intros Hf s b. unfold result_of, bind.
  destruct (m s) as [[[a | e] s1] t1]; simpl; [| discriminate].
  specialize (Hf a s1 b). unfold result_of in Hf.
  destruct (f a s1) as [[r s2] t2]; simpl in *. exact Hf.
Qed.

Lemma keeps_modify (R : relation task) (f : task -> task) :
  (forall s, R s (f s)) -> keeps (A := unit) R (modify f).
Proof. intros H s. apply H. Qed.

End Rules.

Lemma keeps_try_except {A : Type} (R : relation task) `{!Transitive R}
    (m : M A) (h : exn -> M A) :
  keeps R m -> (forall e, keeps R (h e)) -> keeps R (try_except m h).
Proof.
  intros Hm Hh s. specialize (Hm s). unfold state_of, try_except in *.
  destruct (m s) as [[[a | e] s1] t1]; simpl in *; [exact Hm |].
  specialize (Hh e s1). unfold state_of in Hh.
  destruct (h e s1) as [[r s2] t2]; simpl in *.
  etransitivity; eassumption.
Qed.

Lemma emits_try_except {A : Type} (P : event -> Prop)
    (m : M A) (h : exn -> M A) :
  emits P m -> (forall e, emits P (h e)) -> emits P (try_except m h).
Proof.
  intros Hm Hh s. specialize (Hm s). unfold trace_of, try_except in *.
  destruct (m s) as [[[a | e] s1] t1]; simpl in *; [exact Hm |].
  specialize (Hh e s1). unfold trace_of in Hh.
  destruct (h e s1) as [[r s2] t2]; simpl in *.
  apply Forall_app; auto.
Qed.

Lemma total_try_except {A : Type} (m : M A) (h : exn -> M A) :
  (forall e, total (h e)) -> total (try_except m h).
Proof.
  intros Hh s. unfold result_of, try_except.
  destruct (m s) as [[[a | e] s1] t1]; simpl; [eauto |].
  destruct (Hh e s1) as [b Hb]. unfold result_of in Hb.
  destruct (h e s1) as [[r s2] t2]; simpl in *. eauto.
Qed.

Lemma silent_get_task : silent get_task.
Proof. intros s. split; reflexivity. Qed.

Lemma silent_get_pv name : silent (get_pv name).
Proof. intros s. split; reflexivity. Qed.

Lemma silent_get_cycle : silent get_cycle.
Proof. intros s. split; reflexivity. Qed.

Lemma keeps_emit (R : relation task) `{!Reflexive R} e : keeps R (emit e).
Proof. intros s. reflexivity. Qed.

Lemma emits_emit (P : event -> Prop) e : P e -> emits P (emit e).
Proof. intros H s. repeat constructor. exact H. Qed.

Lemma emits_modify (P : event -> Prop) f : emits P (modify f).
Proof. intros s. constructor. Qed.

Lemma total_modify f : total (modify f).
Proof. intros s. exists tt. reflexivity. Qed.

Lemma total_emit e : total (emit e).
Proof. intros s. exists tt. reflexivity. Qed.

Lemma total_ret {A : Type} (a : A) : total (ret a).
Proof. intros s. exists a. reflexivity. Qed.

Lemma total_get_pv name : total (get_pv name).
Proof. intros s. eexists. reflexivity. Qed.

Lemma total_get_task : total get_task.
Proof. intros s. eexists. reflexivity. Qed.

Lemma yields_ret {A : Type} (P : A -> Prop) (a : A) : P a -> yields P (ret a).
Proof. intros H s a' [= <-]. exact H. Qed.

#[export] Instance unchanged_preorder {X : Type} (f : task -> X) :
  PreOrder (unchanged f).
Proof.
  split.
  - intros s. reflexivity.
  - intros s1 s2 s3 H12 H23. unfold unchanged in *. congruence.
Qed.

#[export] Instance maintains_preorder (I : task -> Prop) : PreOrder (maintains I).
Proof.
  split.
  - intros s H. exact H.
  - intros s1 s2 s3 H12 H23 H. auto.
Qed.

(** One step of the decomposition of a goal on a composite computation. *)
Ltac unfold_prims :=
  unfold caput, log, log_num, sleep, set_pv, set_status, set_message,
    step_cycle.

Ltac keeps_step :=
  lazymatch goal with
  | |- keeps _ (bind _ _) => apply keeps_bind; [typeclasses eauto | | intros ?]
  | |- keeps _ (try_except _ _) =>
      apply keeps_try_except; [typeclasses eauto | | intros ?]
  | |- keeps _ (ret _) => apply silent_keeps; [typeclasses eauto | apply silent_ret]
  | |- keeps _ (raise _) => apply silent_keeps; [typeclasses eauto | apply silent_raise]
  | |- keeps _ (caget _) => apply silent_keeps; [typeclasses eauto | apply silent_caget]
  | |- keeps _ (lift _) => apply silent_keeps; [typeclasses eauto | apply silent_lift]
  | |- keeps _ get_task => apply silent_keeps; [typeclasses eauto | apply silent_get_task]
  | |- keeps _ (get_pv _) => apply silent_keeps; [typeclasses eauto | apply silent_get_pv]
  | |- keeps _ get_cycle => apply silent_keeps; [typeclasses eauto | apply silent_get_cycle]
  | |- keeps _ (emit _) => apply keeps_emit; typeclasses eauto
  | |- keeps _ (modify _) => apply keeps_modify; intros ?
  | |- keeps _ (if ?b then _ else _) => destruct b
  | |- keeps _ (match ?x with _ => _ end) => destruct x
  end.

Ltac emits_step :=
  lazymatch goal with
  | |- emits _ (bind _ _) => apply emits_bind; [ | intros ?]
  | |- emits _ (try_except _ _) => apply emits_try_except; [ | intros ?]
  | |- emits _ (ret _) => apply silent_emits, silent_ret
  | |- emits _ (raise _) => apply silent_emits, silent_raise
  | |- emits _ (caget _) => apply silent_emits, silent_caget
  | |- emits _ (lift _) => apply silent_emits, silent_lift
  | |- emits _ get_task => apply silent_emits, silent_get_task
  | |- emits _ (get_pv _) => apply silent_emits, silent_get_pv
  | |- emits _ get_cycle => apply silent_emits, silent_get_cycle
  | |- emits _ (emit _) => apply emits_emit
  | |- emits _ (modify _) => apply emits_modify
  | |- emits _ (if ?b then _ else _) => destruct b
  | |- emits _ (match ?x with _ => _ end) => destruct x
  end.

Ltac total_step :=
  lazymatch goal with
  | |- total (bind _ _) => apply total_bind; [ | intros ?]
  | |- total (try_except _ _) => apply total_try_except; intros ?
  | |- total (ret _) => apply total_ret
  | |- total get_task => apply total_get_task
  | |- total (get_pv _) => apply total_get_pv
  | |- total (emit _) => apply total_emit
  | |- total (modify _) => apply total_modify
  | |- total (if ?b then _ else _) => destruct b
  | |- total (match ?x with _ => _ end) => destruct x
  end.

(** ** Python numbers *)



Lemma or_default_falsy (v : pyval) (d : pyfloat) :
  truth v = false -> or_default v d = d.
Proof.
  destruct v as [a |]; simpl; [| reflexivity]. intros ->. reflexivity.
Qed.


Lemma truth_py_false : truth py_false = false.
Proof. reflexivity. Qed.

(** ** The interlock and tracking blocks *)

Section Decide.
Import LaserSynch.
Variable cfg : config.

(** The cycle engages: lines 160-163, then lines 166-167 switch tracking
    off, so that line 171 skips the motor. *)
Lemma decide_engages pll s :
  truth pll = true -> interlock_condition cfg s = true ->
  decide cfg pll s =
    (Ok tt, off_state s,
     (if nonempty (prefix_redpitaya cfg)
      then [Caput (pin cfg) (PutStr "0")] else [])
     ++ [Log Warning interlock_text]).
Proof.
  intros Hpll Hcond.
  unfold decide, interlock, tracking, bind, get_task, get_pv, ret.
  unfold_prims. unfold modify, emit.
  rewrite Hpll, Hcond. simpl.
  destruct (nonempty (prefix_redpitaya cfg)); simpl;
    rewrite lookup_insert_eq; reflexivity.
Qed.

(** The subsystem is off when the block is reached: nothing is evaluated,
    tracking is switched off. *)
Lemma decide_inactive pll s :
  truth pll = false ->
  decide cfg pll s = (Ok tt, off_state s, []).
Proof.
  intros Hpll.
  unfold decide, interlock, tracking, bind, get_task, get_pv, ret.
  unfold_prims. unfold modify, emit.
  rewrite Hpll. simpl. rewrite Hpll. simpl.
  rewrite lookup_insert_eq. simpl.
  unfold status_text. rewrite Hpll. reflexivity.
Qed.

(** The subsystem is on and the interlock does not engage: lines 170-179
    decide on the motor step. *)
Lemma decide_active pll s :
  truth pll = true -> interlock_condition cfg s = false ->
  decide cfg pll s =
    (Ok tt,
     with_message (status_text pll (pvs s !! "TRACKING_ON")) s,
     if truth (pvs s !! "TRACKING_ON")
        && (fgt (fabs (corr_avg s)) (tracking_tsh s)
            && nonempty (prefix_motor cfg))
     then [Caput (pv_of (prefix_motor cfg) ":m0.RLV") (PutStrOf (step_value s));
           LogNum Debug "Tracking: moving motor by " (step_value s)]
     else []).
Proof.
  intros Hpll Hcond.
  unfold decide, interlock, tracking, bind, get_task, get_pv, ret.
  unfold_prims. unfold modify, emit.
  rewrite Hpll, Hcond. simpl. rewrite Hpll. simpl.
  destruct (truth (pvs s !! "TRACKING_ON")); simpl; [| reflexivity].
  destruct (fgt (fabs (corr_avg s)) (tracking_tsh s) && nonempty (prefix_motor cfg));
    reflexivity.
Qed.

Lemma decide_total pll : total (decide cfg pll).
Proof.
  intros s. exists tt.
  destruct (truth pll) eqn:Hpll.
  - destruct (interlock_condition cfg s) eqn:Hc.
    + rewrite decide_engages by assumption. reflexivity.
    + rewrite decide_active by assumption. reflexivity.
  - rewrite decide_inactive by assumption. reflexivity.
Qed.

End Decide.

(** ** Names of process variables *)

Lemma append_inj_l (p a b : string) : p +:+ a = p +:+ b -> a = b.
Proof.
  induction p as [| c p IH]; simpl; [auto |]. intros [= H]. auto.
Qed.

Lemma last_char_append (p a : string) c :
  last_char a = Some c -> last_char (p +:+ a) = Some c.
Proof.
  intros Ha. induction p as [| c' p IH]; simpl; [exact Ha |].
  destruct (p +:+ a) eqn:E; [| exact IH].
  simpl in IH. discriminate.
Qed.

Lemma start_is_not_pin cfg :
  String.eqb (LaserSynch.pv_of (prefix_redpitaya cfg) ":START_SS_ACQ_CMD")
             (LaserSynch.pin cfg) = false.
Proof.
  apply String.eqb_neq. unfold LaserSynch.pin, LaserSynch.pv_of.
  intros H. apply append_inj_l in H. discriminate.
Qed.

Lemma motor_is_not_pin cfg :
  String.eqb (LaserSynch.pv_of (prefix_motor cfg) ":m0.RLV")
             (LaserSynch.pin cfg) = false.
Proof.
  apply String.eqb_neq. unfold LaserSynch.pin, LaserSynch.pv_of.
  intros H. apply (f_equal last_char) in H.
  rewrite (last_char_append _ _ "V"%char) in H by reflexivity.
  rewrite (last_char_append _ _ "D"%char) in H by reflexivity.
  discriminate.
Qed.

(** ** The acquisition phase *)

Lemma push_evict_bounded n (buf : list pyfloat) x :
  LaserSynch.bounded n buf -> LaserSynch.bounded n (push_evict n buf x).
Proof.
  unfold LaserSynch.bounded. intros H.
  destruct (Z_lt_le_dec n 0) as [Hneg | Hpos].
  - assert (buf = []) as -> by (destruct buf; [reflexivity | simpl in H; lia]).
    rewrite push_evict_negative by exact Hneg. simpl. lia.
  - rewrite Z.max_r in * by lia. apply push_evict_length; assumption.
Qed.

Ltac keeps_all := repeat keeps_step.

(** A name is not among the process variables a phase writes. *)
Ltac not_written :=
  unfold LaserSynch.acquire_writes; rewrite !not_elem_of_cons; repeat split; try discriminate;
  apply not_elem_of_nil.
Ltac emits_all := repeat emits_step.

Ltac unfold_phases :=
  unfold LaserSynch.acquire, LaserSynch.read_pll, LaserSynch.reset_average,
    LaserSynch.acquire_correction, LaserSynch.update_laser_amp,
    LaserSynch.update_err;
  unfold_prims.

Section Acquire.
Import LaserSynch.
Variables (cfg : config) (inp : cycle_inputs).

Lemma acquire_bounded : keeps (maintains (windows_bounded cfg)) (acquire cfg inp).
Proof.
  unfold_phases. keeps_all;
    unfold maintains, windows_bounded; simpl; intros (Hc & He & Ha);
    repeat split; try assumption; try (apply push_evict_bounded; assumption).
  unfold bounded. simpl. lia.
Qed.

Lemma acquire_pv k :
  k ∉ acquire_writes ->
  keeps (unchanged (fun s => pvs s !! k)) (acquire cfg inp).
Proof.
  intros Hk.
  assert (k <> "PLL_ON" /\ k <> "AVG_RESET" /\ k <> "CORR" /\ k <> "CORR_AVG")
    as (H1 & H2 & H3 & H4).
  { unfold acquire_writes in Hk. rewrite !not_elem_of_cons in Hk. tauto. }
  unfold_phases. keeps_all; unfold unchanged; simpl;
    try reflexivity; rewrite lookup_insert_ne by congruence; reflexivity.
Qed.

Lemma acquire_cycle : keeps (unchanged cycle) (acquire cfg inp).
Proof. unfold_phases. keeps_all; reflexivity. Qed.

Lemma acquire_status : keeps (unchanged status) (acquire cfg inp).
Proof. unfold_phases. keeps_all; reflexivity. Qed.

Lemma acquire_message : keeps (unchanged message) (acquire cfg inp).
Proof. unfold_phases. keeps_all; reflexivity. Qed.

(** The phase neither engages the interlock, nor steps the motor, nor
    writes to the pin. *)
Lemma acquire_quiet : emits (quiet cfg) (acquire cfg inp).
Proof.
  unfold_phases. emits_all; unfold quiet; simpl; repeat split.
  rewrite start_is_not_pin. reflexivity.
Qed.

End Acquire.

(** ** States left by a computation that raises *)

Lemma keeps_raised_weaken {A : Type} (R : relation task) (m : M A) :
  keeps R m -> keeps_if_raised R m.
Proof. intros H s e _. apply H. Qed.

Lemma total_keeps_if_raised {A : Type} (R : relation task) (m : M A) :
  total m -> keeps_if_raised R m.
Proof. intros H s e He. destruct (H s) as [a Ha]. congruence. Qed.

Lemma keeps_if_raised_bind {A B : Type} (R : relation task) `{!Transitive R}
    (m : M A) (f : A -> M B) :
  keeps R m -> (forall a, keeps_if_raised R (f a)) ->
  keeps_if_raised R (bind m f).
Proof.
  intros Hk Hf s e. specialize (Hk s).
  unfold result_of, state_of, bind in *.
  destruct (m s) as [[[a | e1] s1] t1]; simpl in *.
  - specialize (Hf a s1 e). unfold result_of, state_of in Hf.
    destruct (f a s1) as [[r s2] t2]; simpl in *.
    intros ->. etransitivity; [exact Hk | apply Hf; reflexivity].
  - intros _. exact Hk.
Qed.

Lemma keeps_if_raised_last {A B : Type} (R : relation task)
    (m : M A) (f : A -> M B) :
  keeps_if_raised R m -> (forall a, total (f a)) ->
  keeps_if_raised R (bind m f).
Proof.
  intros Hm Hf s e. specialize (Hm s).
  unfold result_of, state_of, bind in *.
  destruct (m s) as [[[a | e1] s1] t1]; simpl in *.
  - destruct (Hf a s1) as [b Hb]. unfold result_of in Hb.
    destruct (f a s1) as [[r s2] t2]; simpl in *. congruence.
  - intros _. apply (Hm e1). reflexivity.
Qed.

Ltac raised_step :=
  lazymatch goal with
  | |- keeps_if_raised _ (bind _ (fun _ => ret _)) =>
      apply keeps_if_raised_last; [ | intros ?; apply total_ret]
  | |- keeps_if_raised _ (bind _ _) =>
      apply keeps_if_raised_bind;
      [typeclasses eauto | solve [repeat keeps_step; reflexivity] | intros ?]
  | |- keeps_if_raised _ (modify _) => apply total_keeps_if_raised, total_modify
  | |- keeps_if_raised _ (ret _) => apply total_keeps_if_raised, total_ret
  | |- keeps_if_raised _ (if ?b then _ else _) => destruct b
  | |- keeps_if_raised _ (match ?x with _ => _ end) => destruct x
  | |- keeps_if_raised _ _ =>
      apply keeps_raised_weaken; solve [repeat keeps_step; reflexivity]
  end.

Section AcquireResult.
Import LaserSynch.
Variables (cfg : config) (inp : cycle_inputs).

(** The value of [pll_on] after line 102. *)
Lemma read_pll_Ok s v s1 t1 :
  read_pll cfg inp s = (Ok v, s1, t1) ->
  s1 = s /\ t1 = [] /\ truth v = reports_active cfg inp.
Proof.
  unfold read_pll, reports_active.
  destruct (nonempty (prefix_redpitaya cfg)); simpl.
  - destruct (in_pll_status inp) as [v' | e]; simpl; [| discriminate].
    intros [= -> -> <-]. auto.
  - intros [= <- -> <-]. auto.
Qed.

Lemma acquire_Ok s v s1 t1 :
  acquire cfg inp s = (Ok v, s1, t1) -> truth v = reports_active cfg inp.
Proof.
  unfold acquire. intros H.
  apply bind_Ok_inv in H as (a & s' & t' & t'' & Hread & Hrest & _).
  apply read_pll_Ok in Hread as (_ & _ & <-).
  assert (yields (fun v => v = a)
            (n <- lift (int_of_val a) ;;
             set_pv "PLL_ON" (of_Z n) ;;
             reset_average ;;
             acquire_correction cfg inp ;;
             update_laser_amp cfg inp ;;
             update_err cfg inp ;;
             ret a)) as Hy.
  { repeat (apply yields_bind; intros ?). apply yields_ret. reflexivity. }
  rewrite (Hy s' v); [reflexivity |]. unfold result_of. rewrite Hrest. reflexivity.
Qed.

(** A cycle that fails before the interlock leaves the error window as it
    found it: the window is written last, by a statement that cannot
    fail. *)
Lemma acquire_raised_err_buff :
  keeps_if_raised (unchanged err_buff) (acquire cfg inp).
Proof. unfold_phases. repeat raised_step. Qed.

End AcquireResult.

(** ** What a trace shows *)

Lemma engages_app t1 t2 :
  LaserSynch.engages (t1 ++ t2) = LaserSynch.engages t1 || LaserSynch.engages t2.
Proof. apply existsb_app. Qed.

Lemma motor_steps_app t1 t2 :
  LaserSynch.motor_steps (t1 ++ t2)
  = LaserSynch.motor_steps t1 ++ LaserSynch.motor_steps t2.
Proof. apply omap_app. Qed.

Lemma pin_writes_app cfg t1 t2 :
  LaserSynch.pin_writes cfg (t1 ++ t2)
  = LaserSynch.pin_writes cfg t1 ++ LaserSynch.pin_writes cfg t2.
Proof. apply omap_app. Qed.

Lemma quiet_trace cfg t :
  Forall (LaserSynch.quiet cfg) t ->
  LaserSynch.engages t = false /\ LaserSynch.motor_steps t = []
  /\ LaserSynch.pin_writes cfg t = [].
Proof.
  induction 1 as [| e t (He & Hs & Hp) _ (IH1 & IH2 & IH3)].
  - repeat split.
  - unfold LaserSynch.engages, LaserSynch.motor_steps, LaserSynch.pin_writes in *.
    simpl. rewrite He, Hs, Hp, IH1. simpl. auto.
Qed.

(** ** The whole cycle *)

Section Cycle.
Import LaserSynch.
Variables (cfg : config) (inp : cycle_inputs).

Lemma process_cycle_Ok s s' t :
  process_cycle cfg inp s = (Ok tt, s', t) ->
  exists v s1 t1 t2,
    acquire cfg inp s = (Ok v, s1, t1)
    /\ decide cfg v s1 = (Ok tt, s', t2)
    /\ t = t1 ++ t2
    /\ truth v = reports_active cfg inp
    /\ Forall (quiet cfg) t1.
Proof.
  intros H. apply bind_Ok_inv in H as (v & s1 & t1 & t2 & Ha & Hd & ->).
  exists v, s1, t1, t2. repeat split; try assumption.
  - eapply acquire_Ok; eassumption.
  - pose proof (acquire_quiet cfg inp s) as Hq. unfold trace_of in Hq.
    rewrite Ha in Hq. exact Hq.
Qed.

Lemma process_cycle_Raised s e s' t :
  process_cycle cfg inp s = (Raised e, s', t) ->
  acquire cfg inp s = (Raised e, s', t).
Proof.
  intros H. apply bind_Raised_inv in H as [H | (v & s1 & t1 & t2 & _ & Hd & _)].
  - exact H.
  - destruct (decide_total cfg v s1) as [u Hu]. unfold result_of in Hu.
    rewrite Hd in Hu. discriminate.
Qed.

Lemma decide_keeps {X : Type} (f : task -> X) v :
  (forall s x, f (with_message x s) = f s) ->
  (forall s p, f (with_pvs p s) = f s) ->
  keeps (unchanged f) (decide cfg v).
Proof.
  intros Hm Hp. unfold decide, interlock, tracking. unfold_prims.
  keeps_all; unfold unchanged; auto.
Qed.

Lemma process_cycle_bounded :
  keeps (maintains (windows_bounded cfg)) (process_cycle cfg inp).
Proof.
  unfold process_cycle. apply keeps_bind; [typeclasses eauto | apply acquire_bounded |].
  intros v. unfold decide, interlock, tracking. unfold_prims.
  keeps_all; unfold maintains; auto.
Qed.

Lemma loop_body_bounded :
  keeps (maintains (windows_bounded cfg)) (loop_body cfg inp).
Proof.
  unfold loop_body.
  apply keeps_bind; [typeclasses eauto | keeps_all |].
  intros enable. destruct (negb (truth enable)).
  - unfold_prims. keeps_all.
  - apply keeps_bind; [typeclasses eauto | | intros ?; unfold_prims; keeps_all].
    apply keeps_try_except; [typeclasses eauto | | ].
    + apply keeps_bind; [typeclasses eauto | apply process_cycle_bounded |].
      intros _. unfold_prims. keeps_all. unfold maintains. auto.
    + intros e. unfold_prims. keeps_all; unfold maintains; auto.
Qed.

End Cycle.

Lemma reachable_bounded cfg s :
  LaserSynch.reachable cfg s -> LaserSynch.windows_bounded cfg s.
Proof.
  induction 1 as [p | s inp Hs IH | s ws Hs IH].
  - unfold LaserSynch.windows_bounded, LaserSynch.bounded. simpl. lia.
  - apply (loop_body_bounded cfg inp s IH).
  - exact IH.
Qed.

(** ** Counting the violations of a full window *)

Lemma filter_length_le (p : pyfloat -> bool) (buf : list pyfloat) :
  (length (List.filter p buf) <= length buf)%nat.
Proof.
  induction buf as [| x buf IH]; simpl; [lia |].
  destruct (p x); simpl; lia.
Qed.




(* ===================================================================== *)
(** * The interlock                                                       *)
(* ===================================================================== *)

Section Interlock.
Import LaserSynch.



End Interlock.

Lemma run_eta {A : Type} (x : outcome A * task * list event) :
  x = (result_of x, state_of x, trace_of x).
Proof. destruct x as [[r s] t]. reflexivity. Qed.

Lemma emits_bind_yields {A B : Type} (P : event -> Prop) (Q : A -> Prop)
    (m : M A) (f : A -> M B) :
  emits P m -> yields Q m -> (forall a, Q a -> emits P (f a)) ->
  emits P (bind m f).
Proof.
  intros Hm Hy Hf s. specialize (Hm s). specialize (Hy s).
  unfold trace_of, result_of, bind in *.
  destruct (m s) as [[[a | e] s1] t1]; simpl in *; [| exact Hm].
  specialize (Hf a (Hy a eq_refl) s1). unfold trace_of in Hf.
  destruct (f a s1) as [[r s2] t2]; simpl in *.
  apply Forall_app; auto.
Qed.


Section Latch.
Import LaserSynch.
Variable cfg : config.

Lemma acquire_yields inp :
  yields (fun v => truth v = reports_active cfg inp) (acquire cfg inp).
Proof.
  intros s v H. rewrite (run_eta (acquire cfg inp s)) in H.
  unfold result_of in H at 1. simpl in H.
  eapply (acquire_Ok cfg inp s v). rewrite (run_eta (acquire cfg inp s)).
  f_equal. f_equal. exact H.
Qed.







End Latch.

Section InterlockClaims.
Import LaserSynch Scenario.



End InterlockClaims.

Section InterlockWitness.
Import LaserSynch Scenario.

(** Five samples of 1.1 against a threshold of 1.0 meet the condition; one
    sample of 0.9 among them prevents it. *)
Example five_violations :
  interlock_condition cfg5 (holding [1.1; 1.1; 1.1; 1.1; 1.1]%Q) = true.
Proof. reflexivity. Qed.

Example one_compliant_sample :
  interlock_condition cfg5 (holding [1.1; 1.1; 0.9; 1.1; 1.1]%Q) = false.
Proof. reflexivity. Qed.


End InterlockWitness.

(* ===================================================================== *)
(** * Tracking                                                            *)
(* ===================================================================== *)

Section Tracking.
Import LaserSynch.





End Tracking.

Section TrackingExamples.
Import LaserSynch Scenario.



End TrackingExamples.

(* ===================================================================== *)
(** * Failed cycles and absent samples                                    *)
(* ===================================================================== *)

Section Failures.
Import LaserSynch.
Variables (cfg : config) (inp : cycle_inputs).

(** Lines 85-95 when [_process_cycle] raises. *)
Lemma loop_body_Raised s e s1 t1 :
  truth (pvs s !! "ENABLE") = true ->
  process_cycle cfg inp s = (Raised e, s1, t1) ->
  loop_body cfg inp s =
    (Ok tt, error_state e s1,
     t1 ++ [Log Error ("Error in processing cycle: " +:+ exn_str e);
            Sleep (loop_period cfg)]).
Proof.
  intros Hen Hrun.
  unfold loop_body, bind at 1, get_pv. rewrite Hen. simpl.
  unfold bind at 1, try_except, bind at 1. rewrite Hrun.
  unfold_prims. unfold bind, modify, emit, error_state. simpl.
  rewrite <- app_assoc. reflexivity.
Qed.

(** Lines 85-95 when [_process_cycle] returns. *)
Lemma loop_body_Ok s s1 t1 :
  truth (pvs s !! "ENABLE") = true ->
  process_cycle cfg inp s = (Ok tt, s1, t1) ->
  loop_body cfg inp s =
    (Ok tt, with_cycle (cycle s1 + 1) s1, t1 ++ [Sleep (loop_period cfg)]).
Proof.
  intros Hen Hrun.
  unfold loop_body, bind at 1, get_pv. rewrite Hen. simpl.
  unfold bind at 1, try_except, bind at 1. rewrite Hrun.
  unfold_prims. unfold bind, modify, emit. simpl.
  rewrite app_nil_r. reflexivity.
Qed.

Lemma process_cycle_cycle : keeps (unchanged cycle) (process_cycle cfg inp).
Proof.
  unfold process_cycle. apply keeps_bind; [typeclasses eauto | apply acquire_cycle |].
  intros v. apply decide_keeps; reflexivity.
Qed.





(** The windows after the acquisition phase of a cycle that gets through
    it. *)
Lemma acquire_Ok_windows s v s1 t1 :
  acquire cfg inp s = (Ok v, s1, t1) ->
  err_buff s1 =
    match err_sample cfg inp with
    | Some e => push_evict (interlock_buff_length cfg) (err_buff s) e
    | None => err_buff s
    end
  /\ laser_amp_buff s1 =
       match amp_sample cfg inp with
       | Some a => push_evict (interlock_buff_length cfg) (laser_amp_buff s) a
       | None => laser_amp_buff s
       end.
Proof.
  unfold acquire. intros H.
  apply bind_Ok_inv in H as (pll & sa & ta & ? & Ha & H & _).
  apply bind_Ok_inv in H as (n & sb & tb & ? & Hb & H & _).
  apply bind_Ok_inv in H as ([] & sc & tc & ? & Hc & H & _).
  apply bind_Ok_inv in H as ([] & sd & td & ? & Hd & H & _).
  apply bind_Ok_inv in H as ([] & se & te & ? & He & H & _).
  apply bind_Ok_inv in H as ([] & sf & tf & ? & Hf & H & _).
  apply bind_Ok_inv in H as ([] & sg & tg & ? & Hg & H & _).
  injection H as <- <- _.
  assert (forall X (f : task -> X) (m : M unit) a b u,
            keeps (unchanged f) m -> m a = (Ok tt, b, u) -> f b = f a) as step.
  { intros X f m a b u Hk Hm. specialize (Hk a). unfold state_of in Hk.
    rewrite Hm in Hk. exact Hk. }
  assert (sa = s) as -> by (apply read_pll_Ok in Ha; tauto).
  assert (sb = s) as ->.
  { destruct (int_of_val pll); simpl in Hb; [| discriminate].
    injection Hb as _ <- _. reflexivity. }
  assert (err_buff sf = err_buff s) as Herr.
  { rewrite (step _ err_buff (update_laser_amp cfg inp) _ _ _ ltac:(unfold_phases; keeps_all; reflexivity) Hf).
    rewrite (step _ err_buff (acquire_correction cfg inp) _ _ _ ltac:(unfold_phases; keeps_all; reflexivity) He).
    rewrite (step _ err_buff (reset_average) _ _ _ ltac:(unfold_phases; keeps_all; reflexivity) Hd).
    apply (step _ err_buff (set_pv "PLL_ON" (of_Z n)) _ _ _ ltac:(unfold_phases; keeps_all; reflexivity) Hc). }
  assert (laser_amp_buff se = laser_amp_buff s) as Hamp.
  { rewrite (step _ laser_amp_buff (acquire_correction cfg inp) _ _ _ ltac:(unfold_phases; keeps_all; reflexivity) He).
    rewrite (step _ laser_amp_buff (reset_average) _ _ _ ltac:(unfold_phases; keeps_all; reflexivity) Hd).
    apply (step _ laser_amp_buff (set_pv "PLL_ON" (of_Z n)) _ _ _ ltac:(unfold_phases; keeps_all; reflexivity) Hc). }
  split.
  - rewrite <- Herr. clear - Hg. unfold update_err, err_sample in *.
    destruct (nonempty (prefix_redpitaya cfg)); [| injection Hg as <- _; reflexivity].
    destruct (in_wave_err inp) as [[w |] | e]; simpl in Hg;
      [| injection Hg as <- _; reflexivity | discriminate].
    unfold bind in Hg. simpl in Hg.
    destruct (np_max w) as [e | e]; simpl in Hg; [| discriminate].
    injection Hg as <- _. reflexivity.
  - rewrite (step _ laser_amp_buff (update_err cfg inp) _ _ _ ltac:(unfold_phases; keeps_all; reflexivity) Hg).
    rewrite <- Hamp. clear - Hf. unfold update_laser_amp, amp_sample in *.
    destruct (nonempty (pv_laser_amp_llrf cfg)); [| injection Hf as <- _; reflexivity].
    destruct (in_laser_amp inp) as [[a |] | e]; simpl in Hf;
      [| injection Hf as <- _; reflexivity | discriminate].
    injection Hf as <- _. reflexivity.
Qed.

Lemma process_cycle_Ok_windows s s' t :
  process_cycle cfg inp s = (Ok tt, s', t) ->
  err_buff s' =
    match err_sample cfg inp with
    | Some e => push_evict (interlock_buff_length cfg) (err_buff s) e
    | None => err_buff s
    end
  /\ laser_amp_buff s' =
       match amp_sample cfg inp with
       | Some a => push_evict (interlock_buff_length cfg) (laser_amp_buff s) a
       | None => laser_amp_buff s
       end.
Proof.
  intros H. apply process_cycle_Ok in H as (v & s1 & t1 & t2 & Ha & Hd & _).
  apply acquire_Ok_windows in Ha as [<- <-].
  pose proof (decide_keeps cfg err_buff v ltac:(reflexivity) ltac:(reflexivity) s1) as H1.
  pose proof (decide_keeps cfg laser_amp_buff v ltac:(reflexivity) ltac:(reflexivity) s1) as H2.
  unfold unchanged, state_of in H1, H2. rewrite Hd in H1, H2. auto.
Qed.

End Failures.

Section FailureClaims.
Import LaserSynch.

Lemma state_of_eq {A : Type} (m : M A) s r s1 t1 :
  m s = (r, s1, t1) -> state_of (m s) = s1 /\ trace_of (m s) = t1
                       /\ result_of (m s) = r.
Proof. intros ->. auto. Qed.

(** C4. When [_process_cycle] raises in an enabled turn of the loop, the
    exception stops at the [try] of [run]: the turn ends normally with
    status ERROR and message "Error: " followed by the text of the
    exception, the cycle counter is the one before the turn, the error is
    logged and the loop sleeps its period and goes on with the next turn. *)
Theorem failed_cycle_is_caught cfg inp s e s1 t1 :
  truth (pvs s !! "ENABLE") = true ->
  process_cycle cfg inp s = (Raised e, s1, t1) ->
  let r := loop_body cfg inp s in
  result_of r = Ok tt
  /\ status (state_of r) = "ERROR"
  /\ message (state_of r) = "Error: " +:+ exn_str e
  /\ cycle (state_of r) = cycle s
  /\ trace_of r =
       t1 ++ [Log Error ("Error in processing cycle: " +:+ exn_str e);
              Sleep (loop_period cfg)]
  /\ forall tk ticks s0,
       tick_running tk = true -> tick_inputs tk = inp ->
       state_of (external_writes (tick_writes tk) s0) = s ->
       let rest := run_loop cfg ticks (state_of r) in
       run_loop cfg (tk :: ticks) s0 =
         (result_of rest, state_of rest, trace_of r ++ trace_of rest).
Proof.
  intros Hen Hrun r.
  pose proof (loop_body_Raised cfg inp s e s1 t1 Hen Hrun) as Hbody.
  subst r. rewrite Hbody. unfold result_of, state_of, trace_of. simpl.
  repeat split.
  - pose proof (process_cycle_cycle cfg inp s) as Hc.
    unfold unchanged, state_of in Hc. rewrite Hrun in Hc. exact Hc.
  - intros tk ticks s0 Hr Hi Hs. simpl.
    unfold bind at 1. unfold external_writes, modify in *. simpl in *.
    rewrite Hs, Hr, Hi. unfold bind at 1. rewrite Hbody.
    destruct (run_loop cfg ticks (error_state e s1)) as [[r2 s2] t2].
    reflexivity.
Qed.



End FailureClaims.

Section FailureExamples.
Import LaserSynch Scenario.

Lemma failed_cycle_is_caught_witness :
  let r := process_cycle cfg2 reads_err_fails start in
  let e := CaError "IN1_DATA_MONITOR: read failed" in
  truth (pvs start !! "ENABLE") = true
  /\ r = (Raised e, state_of r, trace_of r)
  /\ status (state_of (loop_body cfg2 reads_err_fails start)) = "ERROR"
  /\ cycle (state_of (loop_body cfg2 reads_err_fails start)) = cycle start.
Proof.
  intros r e.
  assert (truth (pvs start !! "ENABLE") = true) as H1 by reflexivity.
  assert (r = (Raised e, state_of r, trace_of r)) as H2 by (vm_compute; reflexivity).
  split; [exact H1 |]. split; [exact H2 |].
  pose proof (failed_cycle_is_caught cfg2 reads_err_fails start e
                (state_of r) (trace_of r) H1 H2) as (_ & Hs & _ & Hc & _).
  split; [exact Hs | exact Hc].
Defined.




End FailureExamples.

(* ===================================================================== *)
(** * Sustained faults                                                    *)
(* ===================================================================== *)

Section Sustained.
Import LaserSynch.
Variable cfg : config.



Lemma decide_pv k v :
  k <> "TRACKING_ON" -> keeps (unchanged (fun s => pvs s !! k)) (decide cfg v).
Proof.
  intros Hk. unfold decide, interlock, tracking. unfold_prims.
  keeps_all; unfold unchanged; simpl; try reflexivity;
    rewrite lookup_insert_ne by congruence; reflexivity.
Qed.






End Sustained.

Section SustainedClaim.
Import LaserSynch.



End SustainedClaim.

Section SustainedExample.
Import LaserSynch Scenario.


End SustainedExample.

(* ===================================================================== *)
(** * The windows, the constants, the movement callback                   *)
(* ===================================================================== *)

(** C7. Pushing into an empty window of capacity C a sequence longer than
    C leaves exactly the last C values pushed, in the order they were
    pushed; the window never holds more than C values on the way; and a
    push into a full window removes the oldest value and nothing else.
    The correction, error and amplitude windows are all updated by
    [push_evict]. *)
Theorem window_keeps_last_pushed {A : Type} (C : Z) (xs : list A) :
  0 <= C -> C < Z.of_nat (length xs) ->
  (exists older : list A, xs = older ++ push_all C [] xs)
  /\ Z.of_nat (length (push_all C [] xs)) = C
  /\ Forall (fun b => Z.of_nat (length b) <= C) (push_history C [] xs)
  /\ (forall (oldest : A) (rest : list A) (x : A),
        Z.of_nat (length (oldest :: rest)) = C ->
        push_evict C (oldest :: rest) x = rest ++ [x]).
Proof.
  intros HC Hlen.
  assert (push_all C [] xs = last_n (Z.to_nat C) xs) as E.
  { rewrite push_all_last_n by (simpl; lia). reflexivity. }
  split; [| split; [| split]].
  - exists (take (length xs - Z.to_nat C) xs). rewrite E. unfold last_n.
    symmetry. apply take_drop.
  - rewrite E. unfold last_n. rewrite length_drop. lia.
  - apply push_history_bounded; simpl; lia.
  - intros oldest rest x Hfull.
    rewrite push_evict_overflow by lia. reflexivity.
Qed.

Lemma window_keeps_last_pushed_witness :
  0 <= 2 /\ 2 < Z.of_nat (length [10; 20; 30; 40])
  /\ Z.of_nat (length (push_all 2 [] [10; 20; 30; 40])) = 2.
Proof.
  assert (0 <= 2) as H1 by lia.
  assert (2 < Z.of_nat (length [10; 20; 30; 40])) as H2 by (simpl; lia).
  split; [exact H1 |]. split; [exact H2 |].
  exact (proj1 (proj2 (window_keeps_last_pushed 2 [10; 20; 30; 40] H1 H2))).
Defined.

Section Constants.
Import LaserSynch.



End Constants.

Section Callback.
Import MotorCheck.

Lemma set_switch_run sw s :
  set_switch sw s =
    (Ok tt, s,
     match sw_set_raises sw with
     | None =>
         [DeviceSet (sw_name sw) (of_Z 0);
          Log Info ("Switchoff device " +:+ sw_name sw
                    +:+ " set to 0 (CLOSE) due to motor movement.")]
     | Some e =>
         [Log Error ("Error setting switchoff device " +:+ sw_name sw
                     +:+ ": " +:+ exn_str e)]
     end).
Proof.
  unfold set_switch, try_except, bind. unfold_prims. unfold emit, raise.
  destruct (sw_set_raises sw); reflexivity.
Qed.

Lemma set_switches_run sws : forall s,
  exists t, set_switches sws s = (Ok tt, s, t)
            /\ devices_set t = map sw_name (List.filter accepts sws).
Proof.
  induction sws as [| sw sws IH]; intros s.
  - exists []. split; reflexivity.
  - destruct (IH s) as (t & Ht & Hd). simpl. unfold bind.
    rewrite set_switch_run, Ht. eexists. split; [reflexivity |].
    unfold devices_set in *. rewrite omap_app, Hd. unfold accepts at 2.
    destruct (sw_set_raises sw); reflexivity.
Qed.

Lemma after_cycles_cycle n s : cycle (after_cycles n s) = cycle s + Z.of_nat n.
Proof.
  induction n as [| n IH]; simpl.
  - lia.
  - unfold step_cycle, modify, state_of. simpl. rewrite IH. lia.
Qed.

Lemma callback_run switches name position s :
  (cycle s <= 10 ->
   motor_moved_callback switches name position s = (Ok tt, s, []))
  /\ (10 < cycle s ->
      exists rest,
        motor_moved_callback switches name position s =
          (Ok tt, s,
           LogVal Info ("Motor " +:+ name +:+ " moved to position ") position
           :: rest)
        /\ (truth (pvs s !! "ENABLE") = false -> rest = [])
        /\ (truth (pvs s !! "ENABLE") = true ->
            devices_set rest = map sw_name (List.filter accepts switches))).
Proof.
  split.
  - intros Hc.
    assert ((cycle s >? 10) = false) as Hg
      by (rewrite Z.gtb_ltb; apply Z.ltb_ge; lia).
    unfold motor_moved_callback, bind, get_cycle. rewrite Hg. reflexivity.
  - intros Hc.
    assert ((cycle s >? 10) = true) as Hg
      by (rewrite Z.gtb_ltb; apply Z.ltb_lt; lia).
    destruct (set_switches_run switches s) as (t & Ht & Hd).
    unfold motor_moved_callback, bind, get_cycle, log_val, emit, get_pv.
    rewrite Hg.
    destruct (truth (pvs s !! "ENABLE")) eqn:Hen; simpl.
    + rewrite Ht. exists t.
      split; [reflexivity |]. split; [discriminate | intros _; exact Hd].
    + exists []. split; [reflexivity |]. split; [reflexivity | discriminate].
Qed.

(** C9, as the code has it. The callback does nothing - no log line, no
    device set - while the cycle counter is at most 10. Once the counter
    exceeds 10 it logs the movement and, when the task is enabled, sets to
    0 every switch-off device whose [set] does not raise, in order (and
    none when the task is disabled). The counter starts at 0 and advances
    by one per counted cycle, so a notification is ignored until 11 cycles
    have been counted: after 10 of them it is still ignored. *)
Theorem movement_callback_rule switches name position s :
  let r := motor_moved_callback switches name position s in
  result_of r = Ok tt /\ state_of r = s
  /\ (cycle s <= 10 -> trace_of r = [])
  /\ (10 < cycle s ->
      exists rest,
        trace_of r =
          LogVal Info ("Motor " +:+ name +:+ " moved to position ") position
          :: rest
        /\ (truth (pvs s !! "ENABLE") = false -> rest = [])
        /\ (truth (pvs s !! "ENABLE") = true ->
            devices_set rest = map sw_name (List.filter accepts switches)))
  /\ (forall n,
        trace_of (motor_moved_callback switches name position
                    (after_cycles n s)) = []
        <-> cycle s + Z.of_nat n <= 10)
  /\ (forall p n,
        trace_of (motor_moved_callback switches name position
                    (after_cycles n (initial_task p))) = []
        <-> (n <= 10)%nat).
Proof.
  intros r. subst r.
  destruct (callback_run switches name position s) as [Hlow Hhigh].
  assert (forall s0 n,
            trace_of (motor_moved_callback switches name position
                        (after_cycles n s0)) = []
            <-> cycle s0 + Z.of_nat n <= 10) as Hcount.
  { intros s0 n.
    destruct (callback_run switches name position (after_cycles n s0))
      as [Hl Hh].
    rewrite after_cycles_cycle in Hl, Hh. split.
    - intros Hnil.
      destruct (Z_le_gt_dec (cycle s0 + Z.of_nat n) 10) as [H | H]; [exact H |].
      destruct (Hh ltac:(lia)) as (rest & E & _). rewrite E in Hnil.
      discriminate.
    - intros Hn. rewrite (Hl Hn). reflexivity. }
  split; [| split; [| split; [| split; [| split]]]].
  - destruct (Z_le_gt_dec (cycle s) 10) as [Hle | Hgt].
    + rewrite (Hlow Hle). reflexivity.
    + destruct (Hhigh ltac:(lia)) as (rest & -> & _). reflexivity.
  - destruct (Z_le_gt_dec (cycle s) 10) as [Hle | Hgt].
    + rewrite (Hlow Hle). reflexivity.
    + destruct (Hhigh ltac:(lia)) as (rest & -> & _). reflexivity.
  - intros Hle. rewrite (Hlow Hle). reflexivity.
  - intros Hgt. destruct (Hhigh Hgt) as (rest & -> & H1 & H2).
    exists rest. auto.
  - intros n. apply Hcount.
  - intros p n. rewrite Hcount. simpl. lia.
Qed.

Lemma movement_callback_rule_witness :
  let s := after_cycles 11 Scenario.start in
  10 < cycle s
  /\ truth (pvs s !! "ENABLE") = true
  /\ exists rest,
       trace_of (motor_moved_callback [Scenario.shutter] "M1" (Some (Fin 1)) s)
       = LogVal Info ("Motor " +:+ "M1" +:+ " moved to position ") (Some (Fin 1))
         :: rest
       /\ devices_set rest = ["SHUTTER"].
Proof.
  intros s.
  assert (10 < cycle s) as H1 by (vm_compute; reflexivity).
  assert (truth (pvs s !! "ENABLE") = true) as H2 by (vm_compute; reflexivity).
  split; [exact H1 |]. split; [exact H2 |].
  destruct (proj1 (proj2 (proj2 (proj2
              (movement_callback_rule [Scenario.shutter] "M1" (Some (Fin 1)) s))))
              H1) as (rest & E & _ & Hd).
  exists rest. split; [exact E | exact (Hd H2)].
Defined.

(** Ten cycles have been counted since the start, the task is enabled, a
    switch-off device is configured: the notification is still ignored. *)
Lemma movement_callback_counterexample :
  let s := after_cycles 10 Scenario.start in
  let r := motor_moved_callback [Scenario.shutter] "M1" (Some (Fin 1)) s in
  cycle s = 10
  /\ truth (pvs s !! "ENABLE") = true
  /\ result_of r = Ok tt
  /\ trace_of r = []
  /\ devices_set (trace_of r) = [].
Proof. vm_compute. repeat split. Qed.

End Callback.

(* ===================================================================== *)
(** * Further properties of the laser task                                *)
(* ===================================================================== *)

Section CorrectionPhase.
Import LaserSynch LaserSynchMore.
Variables (cfg : config) (inp : cycle_inputs).

Lemma reset_average_run s :
  reset_average s =
    (Ok tt,
     (if truth (pvs s !! "AVG_RESET")
      then with_pvs (<["AVG_RESET" := of_Z 0]> (pvs s)) (with_corr_buff [] s)
      else s),
     (if truth (pvs s !! "AVG_RESET")
      then [Log Info "Average buffer reset"] else [])).
Proof.
  unfold reset_average, bind, get_pv. unfold_prims. unfold modify, emit.
  destruct (truth (pvs s !! "AVG_RESET")); reflexivity.
Qed.

Lemma corr_value_ext s1 s2 w :
  pvs s1 !! "AVG_START" = pvs s2 !! "AVG_START" ->
  pvs s1 !! "AVG_STOP" = pvs s2 !! "AVG_STOP" ->
  corr_value s1 w = corr_value s2 w.
Proof. unfold corr_value. intros -> ->. reflexivity. Qed.

Lemma acquire_correction_Ok s s' t :
  acquire_correction cfg inp s = (Ok tt, s', t) ->
  match corr_waveform cfg inp with
  | Some w =>
      exists c,
        corr_value s w = Ok c
        /\ s' = with_pvs
                  (<["CORR_AVG" := mean (push_evict (avg_num cfg) (corr_buff s) c)]>
                     (<["CORR" := c]> (pvs s)))
                  (with_corr_buff (push_evict (avg_num cfg) (corr_buff s) c) s)
  | None => s' = s
  end.
Proof.
  unfold acquire_correction, corr_waveform, corr_value.
  destruct (nonempty (prefix_redpitaya cfg)); [| intros [= <- _]; reflexivity].
  unfold bind, caput, emit, get_pv, get_task. unfold_prims. unfold modify.
  destruct (in_wave_corr inp) as [[w |] | e]; simpl;
    [| intros [= <- _]; reflexivity | discriminate].
  destruct (int_of_float (or_default (pvs s !! "AVG_START") (of_Z 0)))
    as [a | e]; simpl; [| discriminate].
  destruct (int_of_float
              (or_default (pvs s !! "AVG_STOP") (of_Z (Z.of_nat (length w)))))
    as [b | e]; simpl; [| discriminate].
  intros [= <- _]. eexists. split; reflexivity.
Qed.

(** The phases of a completed acquisition, one state after the other. *)
Lemma acquire_Ok_phases s v s' t :
  acquire cfg inp s = (Ok v, s', t) ->
  exists n sd td se te sf tf tg,
    status_value cfg inp = Some v
    /\ int_of_val v = Ok n
    /\ reset_average (with_pvs (<["PLL_ON" := of_Z n]> (pvs s)) s) = (Ok tt, sd, td)
    /\ acquire_correction cfg inp sd = (Ok tt, se, te)
    /\ update_laser_amp cfg inp se = (Ok tt, sf, tf)
    /\ update_err cfg inp sf = (Ok tt, s', tg).
Proof.
  unfold acquire. intros H.
  apply bind_Ok_inv in H as (pll & sa & ta & ? & Ha & H & _).
  apply bind_Ok_inv in H as (n & sb & tb & ? & Hb & H & _).
  apply bind_Ok_inv in H as ([] & sc & tc & ? & Hc & H & _).
  apply bind_Ok_inv in H as ([] & sd & td & ? & Hd & H & _).
  apply bind_Ok_inv in H as ([] & se & te & ? & He & H & _).
  apply bind_Ok_inv in H as ([] & sf & tf & ? & Hf & H & _).
  apply bind_Ok_inv in H as ([] & sg & tg & ? & Hg & H & _).
  injection H as <- <- _.
  assert (sa = s /\ status_value cfg inp = Some pll) as [-> Hst].
  { unfold read_pll, status_value in *.
    destruct (nonempty (prefix_redpitaya cfg)).
    - destruct (in_pll_status inp); simpl in Ha; [| discriminate].
      injection Ha as <- <- _. auto.
    - injection Ha as <- <- _. auto. }
  assert (sb = s /\ int_of_val pll = Ok n) as [-> Hint].
  { destruct (int_of_val pll); simpl in Hb; [| discriminate].
    injection Hb as <- <- _. auto. }
  unfold set_pv, modify in Hc. injection Hc as <- _.
  exists n, sd, td, se, te, sf, tf, tg. repeat split; assumption.
Qed.

Lemma update_keeps_corr s s' t :
  update_laser_amp cfg inp s = (Ok tt, s', t)
  \/ update_err cfg inp s = (Ok tt, s', t) ->
  corr_buff s' = corr_buff s /\ pvs s' = pvs s.
Proof.
  intros [H | H].
  - unfold update_laser_amp in H.
    destruct (nonempty (pv_laser_amp_llrf cfg)); [| injection H as <- _; auto].
    destruct (in_laser_amp inp) as [[a |] | e]; simpl in H;
      [| injection H as <- _; auto | discriminate].
    injection H as <- _. auto.
  - unfold update_err in H.
    destruct (nonempty (prefix_redpitaya cfg)); [| injection H as <- _; auto].
    destruct (in_wave_err inp) as [[w |] | e]; simpl in H;
      [| injection H as <- _; auto | discriminate].
    unfold bind in H. simpl in H.
    destruct (np_max w); simpl in H; [| discriminate].
    injection H as <- _. auto.
Qed.

(** What a completed cycle has done to the correction window and to the
    process variables it publishes. *)
Lemma cycle_correction s s' t :
  process_cycle cfg inp s = (Ok tt, s', t) ->
  (exists v n, status_value cfg inp = Some v /\ int_of_val v = Ok n
               /\ pvs s' !! "PLL_ON" = Some (of_Z n))
  /\ (truth (pvs s !! "AVG_RESET") = true ->
      pvs s' !! "AVG_RESET" = Some (of_Z 0))
  /\ match corr_waveform cfg inp with
     | Some w =>
         exists c,
           corr_value s w = Ok c
           /\ corr_buff s' = push_evict (avg_num cfg) (reset_window s) c
           /\ pvs s' !! "CORR" = Some c
           /\ pvs s' !! "CORR_AVG" = Some (mean (corr_buff s'))
     | None =>
         corr_buff s' = reset_window s
         /\ pvs s' !! "CORR" = pvs s !! "CORR"
         /\ pvs s' !! "CORR_AVG" = pvs s !! "CORR_AVG"
     end.
Proof.
  intros Hrun.
  apply process_cycle_Ok in Hrun as (v & s1 & t1 & t2 & Hacq & Hdec & _).
  assert (corr_buff s' = corr_buff s1
          /\ forall k, k <> "TRACKING_ON" -> pvs s' !! k = pvs s1 !! k)
    as [Hcb Hpv].
  { split.
    - pose proof (decide_keeps cfg corr_buff v ltac:(reflexivity)
                    ltac:(reflexivity) s1) as H.
      unfold unchanged, state_of in H. rewrite Hdec in H. exact H.
    - intros k Hk. pose proof (decide_pv cfg k v Hk s1) as H.
      unfold unchanged, state_of in H. rewrite Hdec in H. exact H. }
  apply acquire_Ok_phases
    in Hacq as (n & sd & td & se & te & sf & tf & tg
                & Hst & Hint & Hd & He & Hf & Hg).
  rewrite reset_average_run in Hd. simpl in Hd.
  rewrite lookup_insert_ne in Hd by discriminate.
  injection Hd as Hsd _.
  destruct (update_keeps_corr sf s1 tg (or_intror Hg)) as [Hc1 Hp1].
  destruct (update_keeps_corr se sf tf (or_introl Hf)) as [Hc2 Hp2].
  rewrite Hcb, !Hpv by discriminate. rewrite Hc1, Hp1, Hc2, Hp2.
  apply acquire_correction_Ok in He.
  assert (corr_buff sd = reset_window s
          /\ pvs sd !! "PLL_ON" = Some (of_Z n)
          /\ (truth (pvs s !! "AVG_RESET") = true ->
              pvs sd !! "AVG_RESET" = Some (of_Z 0))
          /\ pvs sd !! "CORR" = pvs s !! "CORR"
          /\ pvs sd !! "CORR_AVG" = pvs s !! "CORR_AVG"
          /\ pvs sd !! "AVG_START" = pvs s !! "AVG_START"
          /\ pvs sd !! "AVG_STOP" = pvs s !! "AVG_STOP")
    as (Hw & Hpll & Hres & Hk1 & Hk2 & Hk3 & Hk4).
  { unfold reset_window. subst sd.
    destruct (truth (pvs s !! "AVG_RESET")); simpl;
      repeat split; try discriminate;
      repeat (rewrite lookup_insert_ne by discriminate);
      try reflexivity; try apply lookup_insert_eq.
    intros _. apply lookup_insert_eq. }
  destruct (corr_waveform cfg inp) as [w |].
  - destruct He as (c & Hc & ->). simpl.
    rewrite !lookup_insert_ne by discriminate.
    split; [exists v, n; auto |]. split; [exact Hres |].
    exists c. rewrite <- Hw.
    split; [rewrite <- Hc; symmetry; apply corr_value_ext; assumption |].
    split; [reflexivity |].
    split; apply lookup_insert_eq.
  - subst se.
    split; [exists v, n; auto |]. split; [exact Hres |]. auto.
Qed.

End CorrectionPhase.

Section Correction.
Import LaserSynch LaserSynchMore.

Lemma push_evict_empty {A : Type} (n : Z) (x : A) :
  push_evict n [] x = if 1 <=? n then [x] else [].
Proof.
  destruct (Z.leb_spec 1 n) as [H | H].
  - rewrite push_evict_room by (simpl; lia). reflexivity.
  - rewrite push_evict_overflow by (simpl; lia). reflexivity.
Qed.

Lemma push_evict_last {A : Type} (n : Z) (buf : list A) (x : A) :
  1 <= n -> last (push_evict n buf x) = Some x.
Proof.
  intros Hn.
  destruct (Z_lt_le_dec n (Z.of_nat (length buf) + 1)) as [H | H].
  - rewrite push_evict_overflow by exact H.
    destruct buf as [| y buf]; simpl in *; [lia | apply last_snoc].
  - rewrite push_evict_room by exact H. apply last_snoc.
Qed.

(** After the push the window holds the new value or nothing at all. *)
Lemma push_evict_new_or_empty {A : Type} (n : Z) (buf : list A) (x : A) :
  push_evict n buf x = [] \/ x ∈ push_evict n buf x.
Proof.
  unfold push_evict.
  destruct (Z.of_nat (length (buf ++ [x])) >? n).
  - destruct buf as [| y buf]; simpl; [left; reflexivity |].
    right. apply elem_of_app. right. apply list_elem_of_singleton. reflexivity.
  - right. apply elem_of_app. right. apply list_elem_of_singleton. reflexivity.
Qed.

Lemma slice_all {A : Type} (l : list A) :
  slice l 0 (Z.of_nat (length l) + 1) = l.
Proof.
  unfold slice, clamp_index.
  replace (0 <? 0) with false by reflexivity.
  destruct (Z.ltb_spec (Z.of_nat (length l) + 1) 0) as [H | H]; [lia |].
  rewrite (Z.min_l 0) by lia.
  rewrite (Z.min_r (Z.of_nat (length l) + 1)) by lia.
  rewrite Z.sub_0_r, Nat2Z.id. change (Z.to_nat 0) with 0%nat.
  rewrite drop_0. apply firstn_all.
Qed.

Lemma slice_beyond {A : Type} (l : list A) (a b : Z) :
  Z.of_nat (length l) <= a -> slice l a b = [].
Proof.
  intros Ha. unfold slice, clamp_index.
  destruct (Z.ltb_spec a 0) as [H | H]; [lia |].
  rewrite (Z.min_r a) by lia. rewrite Nat2Z.id.
  rewrite drop_all. apply take_nil.
Qed.

Lemma int_of_Z (z : Z) : int_of_float (of_Z z) = Ok z.
Proof. unfold int_of_float, of_Z. simpl. rewrite Z.quot_1_r. reflexivity. Qed.

Lemma mean_with_nan (l : list pyfloat) : NaN ∈ l -> mean l = NaN.
Proof.
  intros H. destruct l as [| x l]; [reflexivity |].
  unfold mean. replace (existsb is_nan (x :: l)) with true; [reflexivity |].
  symmetry. apply existsb_exists. exists NaN. split; [| reflexivity].
  apply list_elem_of_In, H.
Qed.

(** The motor steps of a completed cycle, from the state it leaves. *)
Lemma cycle_motor_steps cfg inp s s' t :
  process_cycle cfg inp s = (Ok tt, s', t) ->
  motor_steps t =
    if truth (pvs s' !! "TRACKING_ON")
       && (fgt (fabs (corr_avg s')) (tracking_tsh s')
           && nonempty (prefix_motor cfg))
    then [step_value s'] else [].
Proof.
  intros Hrun.
  apply process_cycle_Ok in Hrun as (v & s1 & t1 & t2 & _ & Hdec & -> & _ & Hq).
  apply quiet_trace in Hq as (_ & Hq2 & _).
  rewrite motor_steps_app, Hq2. simpl.
  destruct (truth v) eqn:Htv; [destruct (interlock_condition cfg s1) eqn:Hc |].
  - rewrite decide_engages in Hdec by assumption.
    injection Hdec as <- <-. unfold off_state. simpl.
    rewrite lookup_insert_eq. simpl.
    destruct (nonempty (prefix_redpitaya cfg)); reflexivity.
  - rewrite decide_active in Hdec by assumption.
    injection Hdec as <- <-. simpl.
    change (corr_avg (with_message _ s1)) with (corr_avg s1).
    change (tracking_tsh (with_message _ s1)) with (tracking_tsh s1).
    change (step_value (with_message _ s1)) with (step_value s1).
    destruct (truth (pvs s1 !! "TRACKING_ON")
              && (fgt (fabs (corr_avg s1)) (tracking_tsh s1)
                  && nonempty (prefix_motor cfg))); reflexivity.
  - rewrite decide_inactive in Hdec by assumption.
    injection Hdec as <- <-. unfold off_state. simpl.
    rewrite lookup_insert_eq. reflexivity.
Qed.

(** X1. A cycle that finds AVG_RESET set empties the correction window
    before it appends: when it completes, AVG_RESET reads 0 and the window
    holds the value of this cycle alone (nothing when no waveform was read
    or when the window has no room for one value). *)
Theorem average_reset_restarts_window cfg inp s s' t :
  process_cycle cfg inp s = (Ok tt, s', t) ->
  truth (pvs s !! "AVG_RESET") = true ->
  pvs s' !! "AVG_RESET" = Some (of_Z 0)
  /\ match corr_waveform cfg inp with
     | Some w =>
         exists c, corr_value s w = Ok c
                   /\ corr_buff s' = (if 1 <=? avg_num cfg then [c] else [])
     | None => corr_buff s' = []
     end.
Proof.
  intros Hrun Hres.
  destruct (cycle_correction cfg inp s s' t Hrun) as (_ & Hr & Hw).
  split; [exact (Hr Hres) |].
  unfold reset_window in Hw. rewrite Hres in Hw.
  destruct (corr_waveform cfg inp) as [w |].
  - destruct Hw as (c & Hc & Hb & _). exists c.
    rewrite Hb, push_evict_empty. auto.
  - tauto.
Qed.

(** X2. When a completed cycle has read a correction waveform, CORR_AVG
    holds the mean of the correction window as the cycle leaves it, CORR
    holds the value computed from the waveform, and that value is the last
    of the window (for a window of at least one place). *)
Theorem published_average_is_window_mean cfg inp s s' t w :
  process_cycle cfg inp s = (Ok tt, s', t) ->
  corr_waveform cfg inp = Some w ->
  pvs s' !! "CORR_AVG" = Some (mean (corr_buff s'))
  /\ exists c, corr_value s w = Ok c
               /\ pvs s' !! "CORR" = Some c
               /\ (1 <= avg_num cfg -> last (corr_buff s') = Some c).
Proof.
  intros Hrun Hwave.
  destruct (cycle_correction cfg inp s s' t Hrun) as (_ & _ & Hw).
  rewrite Hwave in Hw. destruct Hw as (c & Hc & Hb & H1 & H2).
  split; [exact H2 |]. exists c.
  split; [exact Hc |]. split; [exact H1 |].
  intros Hn. rewrite Hb. apply push_evict_last, Hn.
Qed.

(** X3. With AVG_START and AVG_STOP both unset or zero the whole waveform
    is averaged: a stop index of 0 does not select the first sample, it
    selects everything. *)
Theorem unset_range_averages_whole_waveform cfg inp s s' t w :
  process_cycle cfg inp s = (Ok tt, s', t) ->
  corr_waveform cfg inp = Some w ->
  truth (pvs s !! "AVG_START") = false ->
  truth (pvs s !! "AVG_STOP") = false ->
  corr_value s w = Ok (mean w) /\ pvs s' !! "CORR" = Some (mean w).
Proof.
  intros Hrun Hwave Ha Hb.
  assert (corr_value s w = Ok (mean w)) as Hv.
  { unfold corr_value.
    rewrite (or_default_falsy _ _ Ha), (or_default_falsy _ _ Hb).
    rewrite !int_of_Z, slice_all. reflexivity. }
  split; [exact Hv |].
  destruct (cycle_correction cfg inp s s' t Hrun) as (_ & _ & Hw).
  rewrite Hwave in Hw. destruct Hw as (c & Hc & _ & H1 & _).
  rewrite Hv in Hc. injection Hc as <-. exact H1.
Qed.

(** X4. When the averaging range starts at or beyond the end of the
    waveform (an empty waveform included), the slice is empty and its mean
    is NaN: the cycle publishes NaN as CORR and as CORR_AVG and issues no
    motor step. *)
Theorem empty_range_publishes_nan cfg inp s s' t w a :
  process_cycle cfg inp s = (Ok tt, s', t) ->
  corr_waveform cfg inp = Some w ->
  int_of_float (or_default (pvs s !! "AVG_START") (of_Z 0)) = Ok a ->
  Z.of_nat (length w) <= a ->
  pvs s' !! "CORR" = Some NaN
  /\ pvs s' !! "CORR_AVG" = Some NaN
  /\ motor_steps t = [].
Proof.
  intros Hrun Hwave Ha Hlen.
  destruct (cycle_correction cfg inp s s' t Hrun) as (_ & _ & Hw).
  rewrite Hwave in Hw. destruct Hw as (c & Hc & Hb & H1 & H2).
  assert (c = NaN) as ->.
  { unfold corr_value in Hc. rewrite Ha in Hc.
    destruct (int_of_float
                (or_default (pvs s !! "AVG_STOP") (of_Z (Z.of_nat (length w)))))
      as [b | e]; [| discriminate].
    rewrite slice_beyond in Hc by exact Hlen. injection Hc as <-. reflexivity. }
  assert (mean (corr_buff s') = NaN) as Hm.
  { rewrite Hb.
    destruct (push_evict_new_or_empty (avg_num cfg) (reset_window s) NaN)
      as [-> | Hin]; [reflexivity | apply mean_with_nan, Hin]. }
  rewrite Hm in H2.
  split; [exact H1 |]. split; [exact H2 |].
  rewrite (cycle_motor_steps cfg inp s s' t Hrun).
  unfold corr_avg. rewrite H2. simpl. rewrite andb_false_r. reflexivity.
Qed.

End Correction.

Section CorrectionWitnesses.
Import LaserSynch LaserSynchMore Scenario ScenarioMore.

Lemma average_reset_restarts_window_witness :
  let r := process_cycle cfg2 (reads 1 0) start_reset_requested in
  r = (Ok tt, state_of r, trace_of r)
  /\ truth (pvs start_reset_requested !! "AVG_RESET") = true
  /\ pvs (state_of r) !! "AVG_RESET" = Some (of_Z 0).
Proof.
  intros r.
  assert (r = (Ok tt, state_of r, trace_of r)) as H1 by (vm_compute; reflexivity).
  assert (truth (pvs start_reset_requested !! "AVG_RESET") = true) as H2
    by reflexivity.
  split; [exact H1 |]. split; [exact H2 |].
  exact (proj1 (average_reset_restarts_window cfg2 (reads 1 0)
                  start_reset_requested (state_of r) (trace_of r) H1 H2)).
Defined.

Lemma published_average_is_window_mean_witness :
  let r := process_cycle cfg2 (reads 1 0) start in
  r = (Ok tt, state_of r, trace_of r)
  /\ corr_waveform cfg2 (reads 1 0) = Some [Fin 1; Fin 1]
  /\ pvs (state_of r) !! "CORR_AVG" = Some (mean (corr_buff (state_of r))).
Proof.
  intros r.
  assert (r = (Ok tt, state_of r, trace_of r)) as H1 by (vm_compute; reflexivity).
  assert (corr_waveform cfg2 (reads 1 0) = Some [Fin 1; Fin 1]) as H2
    by reflexivity.
  split; [exact H1 |]. split; [exact H2 |].
  exact (proj1 (published_average_is_window_mean cfg2 (reads 1 0) start
                  (state_of r) (trace_of r) [Fin 1; Fin 1] H1 H2)).
Defined.

Lemma unset_range_averages_whole_waveform_witness :
  let r := process_cycle cfg2 (reads 1 0) start in
  r = (Ok tt, state_of r, trace_of r)
  /\ corr_waveform cfg2 (reads 1 0) = Some [Fin 1; Fin 1]
  /\ truth (pvs start !! "AVG_START") = false
  /\ truth (pvs start !! "AVG_STOP") = false
  /\ pvs (state_of r) !! "CORR" = Some (mean [Fin 1; Fin 1]).
Proof.
  intros r.
  assert (r = (Ok tt, state_of r, trace_of r)) as H1 by (vm_compute; reflexivity).
  assert (corr_waveform cfg2 (reads 1 0) = Some [Fin 1; Fin 1]) as H2
    by reflexivity.
  assert (truth (pvs start !! "AVG_START") = false) as H3 by reflexivity.
  assert (truth (pvs start !! "AVG_STOP") = false) as H4 by reflexivity.
  split; [exact H1 |]. split; [exact H2 |]. split; [exact H3 |].
  split; [exact H4 |].
  exact (proj2 (unset_range_averages_whole_waveform cfg2 (reads 1 0) start
                  (state_of r) (trace_of r) [Fin 1; Fin 1] H1 H2 H3 H4)).
Defined.

Lemma empty_range_publishes_nan_witness :
  let r := process_cycle cfg2 (reads 1 0) start_range_beyond in
  r = (Ok tt, state_of r, trace_of r)
  /\ corr_waveform cfg2 (reads 1 0) = Some [Fin 1; Fin 1]
  /\ int_of_float (or_default (pvs start_range_beyond !! "AVG_START") (of_Z 0))
     = Ok 5
  /\ Z.of_nat (length [Fin 1; Fin 1]) <= 5
  /\ pvs (state_of r) !! "CORR_AVG" = Some NaN
  /\ motor_steps (trace_of r) = [].
Proof.
  intros r.
  assert (r = (Ok tt, state_of r, trace_of r)) as H1 by (vm_compute; reflexivity).
  assert (corr_waveform cfg2 (reads 1 0) = Some [Fin 1; Fin 1]) as H2
    by reflexivity.
  assert (int_of_float
            (or_default (pvs start_range_beyond !! "AVG_START") (of_Z 0))
          = Ok 5) as H3 by reflexivity.
  assert (Z.of_nat (length [Fin 1; Fin 1]) <= 5) as H4 by (simpl; lia).
  split; [exact H1 |]. split; [exact H2 |]. split; [exact H3 |].
  split; [exact H4 |].
  exact (proj2 (empty_range_publishes_nan cfg2 (reads 1 0) start_range_beyond
                  (state_of r) (trace_of r) [Fin 1; Fin 1] 5 H1 H2 H3 H4)).
Defined.

End CorrectionWitnesses.

(* ===================================================================== *)
(** * What a cycle does and never does                                    *)
(* ===================================================================== *)

Section CycleEffects.
Import LaserSynch LaserSynchMore.

(** The three ways the block of lines 151-182 can go, with what it emits. *)
Lemma decide_cases cfg v s1 s' t2 :
  decide cfg v s1 = (Ok tt, s', t2) ->
  (truth v = true /\ interlock_condition cfg s1 = true
   /\ s' = off_state s1
   /\ t2 = (if nonempty (prefix_redpitaya cfg)
            then [Caput (pin cfg) (PutStr "0")] else [])
           ++ [Log Warning interlock_text])
  \/ (truth v = true /\ interlock_condition cfg s1 = false
      /\ s' = with_message (status_text v (pvs s1 !! "TRACKING_ON")) s1
      /\ t2 = (if truth (pvs s1 !! "TRACKING_ON")
                  && (fgt (fabs (corr_avg s1)) (tracking_tsh s1)
                      && nonempty (prefix_motor cfg))
               then [Caput (pv_of (prefix_motor cfg) ":m0.RLV")
                           (PutStrOf (step_value s1));
                     LogNum Debug "Tracking: moving motor by " (step_value s1)]
               else []))
  \/ (truth v = false /\ s' = off_state s1 /\ t2 = []).
Proof.
  intros H.
  destruct (truth v) eqn:Htv; [destruct (interlock_condition cfg s1) eqn:Hc |].
  - rewrite decide_engages in H by assumption. injection H as <- <-.
    left. auto.
  - rewrite decide_active in H by assumption. injection H as <- <-.
    right. left. auto.
  - rewrite decide_inactive in H by assumption. injection H as <- <-.
    right. right. auto.
Qed.

Lemma raised_cycle_quiet cfg inp s e s' t :
  process_cycle cfg inp s = (Raised e, s', t) ->
  engages t = false /\ motor_steps t = [] /\ pin_writes cfg t = [].
Proof.
  intros H. apply process_cycle_Raised in H.
  pose proof (acquire_quiet cfg inp s) as Hq. unfold trace_of in Hq.
  rewrite H in Hq. apply quiet_trace, Hq.
Qed.

Lemma raised_cycle_err_buff cfg inp s e s' t :
  process_cycle cfg inp s = (Raised e, s', t) -> err_buff s' = err_buff s.
Proof.
  intros H. apply process_cycle_Raised in H.
  pose proof (acquire_raised_err_buff cfg inp s e) as Hk.
  unfold result_of, state_of, unchanged in Hk. rewrite H in Hk.
  apply Hk. reflexivity.
Qed.

(** X5. A cycle actuates at most once: it issues at most one motor step or
    one write to the pin, never both and never two of either. *)
Theorem one_actuation_per_cycle cfg inp s :
  let t := trace_of (process_cycle cfg inp s) in
  (length (motor_steps t) + length (pin_writes cfg t) <= 1)%nat.
Proof.
  intros t. subst t.
  pose proof (run_eta (process_cycle cfg inp s)) as E.
  destruct (result_of (process_cycle cfg inp s)) as [[] | e].
  - apply process_cycle_Ok in E as (v & s1 & t1 & t2 & _ & Hdec & -> & _ & Hq).
    apply quiet_trace in Hq as (_ & Hq2 & Hq3).
    rewrite motor_steps_app, pin_writes_app, Hq2, Hq3. simpl.
    apply decide_cases in Hdec
      as [(_ & _ & _ & ->) | [(_ & _ & _ & ->) | (_ & _ & ->)]].
    + destruct (nonempty (prefix_redpitaya cfg)); unfold pin_writes; simpl;
        [rewrite String.eqb_refl |]; simpl; lia.
    + destruct (truth (pvs s1 !! "TRACKING_ON")
                && (fgt (fabs (corr_avg s1)) (tracking_tsh s1)
                    && nonempty (prefix_motor cfg))); [| simpl; lia].
      unfold pin_writes. simpl. rewrite motor_is_not_pin. simpl. lia.
    + simpl. lia.
  - apply raised_cycle_quiet in E as (_ & -> & ->). simpl. lia.
Qed.

(** X6. PLL_ON is written once, from the status as it was read (0 when no
    RedPitaya is configured), before the interlock is evaluated: a cycle
    in which the interlock engages still leaves in PLL_ON the value read. *)
Theorem pll_on_variable_holds_status_read cfg inp s s' t :
  process_cycle cfg inp s = (Ok tt, s', t) ->
  exists v n,
    status_value cfg inp = Some v /\ int_of_val v = Ok n
    /\ pvs s' !! "PLL_ON" = Some (of_Z n)
    /\ (engages t = true -> truth v = true
                            /\ message s' = "PLL:OFF Track:OFF").
Proof.
  intros Hrun.
  destruct (cycle_correction cfg inp s s' t Hrun) as ((v & n & Hst & Hint & Hpv) & _).
  exists v, n. split; [exact Hst |]. split; [exact Hint |]. split; [exact Hpv |].
  intros Heng.
  apply process_cycle_Ok in Hrun as (v' & s1 & t1 & t2 & Hacq & Hdec & -> & Hv & Hq).
  apply quiet_trace in Hq as (Hq1 & _).
  rewrite engages_app, Hq1 in Heng. simpl in Heng.
  apply acquire_Ok_phases in Hacq as (n' & ? & ? & ? & ? & ? & ? & ? & Hst' & _).
  rewrite Hst in Hst'. injection Hst' as <-.
  apply decide_cases in Hdec
    as [(Htv & _ & -> & _) | [(_ & _ & _ & ->) | (_ & _ & ->)]].
  - auto.
  - destruct (truth (pvs s1 !! "TRACKING_ON")
              && (fgt (fabs (corr_avg s1)) (tracking_tsh s1)
                  && nonempty (prefix_motor cfg))); discriminate.
  - discriminate.
Qed.

(** X7. The message of a completed cycle says PLL:ON exactly when the
    status was read as active and the interlock did not engage, and
    Track:ON exactly when TRACKING_ON is true as the cycle leaves it. *)
Theorem message_reports_cycle cfg inp s s' t :
  process_cycle cfg inp s = (Ok tt, s', t) ->
  message s' =
    "PLL:" +:+ (if reports_active cfg inp && negb (engages t)
                then "ON" else "OFF")
    +:+ " Track:" +:+ (if truth (pvs s' !! "TRACKING_ON")
                       then "ON" else "OFF").
Proof.
  intros Hrun.
  apply process_cycle_Ok in Hrun as (v & s1 & t1 & t2 & _ & Hdec & -> & Hv & Hq).
  apply quiet_trace in Hq as (Hq1 & _).
  rewrite engages_app, Hq1, <- Hv. simpl.
  apply decide_cases in Hdec
    as [(Htv & _ & -> & ->) | [(Htv & _ & -> & ->) | (Htv & -> & ->)]];
    rewrite Htv.
  - unfold off_state. simpl. rewrite lookup_insert_eq.
    destruct (nonempty (prefix_redpitaya cfg)); reflexivity.
  - simpl. unfold status_text. rewrite Htv.
    destruct (truth (pvs s1 !! "TRACKING_ON")
              && (fgt (fabs (corr_avg s1)) (tracking_tsh s1)
                  && nonempty (prefix_motor cfg))); reflexivity.
  - unfold off_state. simpl. rewrite lookup_insert_eq. reflexivity.
Qed.

(** X8. When the status read returns [None], line 105 raises before
    anything else is read or written: the cycle fails with the task as it
    was, and an enabled turn of the loop ends in the ERROR state without a
    single [caput]. *)
Theorem status_none_fails_cycle cfg inp s :
  nonempty (prefix_redpitaya cfg) = true ->
  in_pll_status inp = Returned None ->
  exists e,
    process_cycle cfg inp s = (Raised e, s, [])
    /\ (truth (pvs s !! "ENABLE") = true ->
        loop_body cfg inp s =
          (Ok tt, error_state e s,
           [Log Error ("Error in processing cycle: " +:+ exn_str e);
            Sleep (loop_period cfg)])).
Proof.
  intros Hp Hnone.
  destruct (int_of_val None) as [z | e] eqn:Hint; [discriminate |].
  exists e.
  assert (process_cycle cfg inp s = (Raised e, s, [])) as Hrun.
  { unfold process_cycle, acquire, read_pll. rewrite Hp, Hnone.
    unfold bind. simpl caget. cbv beta iota. unfold ret at 1.
    rewrite Hint. reflexivity. }
  split; [exact Hrun |].
  intros Hen. rewrite (loop_body_Raised cfg inp s e s [] Hen Hrun). reflexivity.
Qed.

(** X9. An empty error waveform makes every cycle fail: [np.max] raises
    (if nothing raised before), the interlock is not evaluated, and the
    error window stays as it was. *)
Theorem empty_error_waveform_fails_cycle cfg inp s :
  nonempty (prefix_redpitaya cfg) = true ->
  in_wave_err inp = Returned (Some []) ->
  let r := process_cycle cfg inp s in
  is_ok (result_of r) = false
  /\ engages (trace_of r) = false
  /\ motor_steps (trace_of r) = []
  /\ pin_writes cfg (trace_of r) = []
  /\ err_buff (state_of r) = err_buff s.
Proof.
  intros Hp Hempty r. subst r.
  pose proof (run_eta (process_cycle cfg inp s)) as E.
  destruct (result_of (process_cycle cfg inp s)) as [[] | e].
  - exfalso.
    apply process_cycle_Ok in E as (v & s1 & t1 & t2 & Hacq & _).
    apply acquire_Ok_phases in Hacq as (? & ? & ? & ? & ? & sf & ? & ? & _ & _ & _ & _ & _ & Hg).
    unfold update_err in Hg. rewrite Hp, Hempty in Hg.
    unfold bind in Hg. simpl in Hg. discriminate.
  - split; [reflexivity |].
    destruct (raised_cycle_quiet cfg inp s e _ _ E) as (H1 & H2 & H3).
    split; [exact H1 |]. split; [exact H2 |]. split; [exact H3 |].
    exact (raised_cycle_err_buff cfg inp s e _ _ E).
Qed.

End CycleEffects.

Section CycleEdges.
Import LaserSynch LaserSynchMore.

Lemma reports_active_no_prefix cfg inp :
  nonempty (prefix_redpitaya cfg) = false -> reports_active cfg inp = false.
Proof. unfold reports_active. intros ->. reflexivity. Qed.

(** X10. Without a RedPitaya prefix a cycle issues no [caput] at all and
    leaves the error window alone; when it completes, the correction
    window is only what an average reset made of it, PLL_ON and
    TRACKING_ON read 0 and the message reports both off. *)
Theorem no_redpitaya_no_actuation cfg inp s :
  nonempty (prefix_redpitaya cfg) = false ->
  let r := process_cycle cfg inp s in
  Forall (fun e => is_caput e = false) (trace_of r)
  /\ err_buff (state_of r) = err_buff s
  /\ (result_of r = Ok tt ->
      corr_buff (state_of r) = reset_window s
      /\ pvs (state_of r) !! "PLL_ON" = Some (of_Z 0)
      /\ pvs (state_of r) !! "TRACKING_ON" = Some (of_Z 0)
      /\ message (state_of r) = "PLL:OFF Track:OFF").
Proof.
  intros Hp r. subst r.
  split; [| split].
  - unfold process_cycle. eapply emits_bind_yields.
    + unfold_phases. rewrite Hp. emits_all; reflexivity.
    + apply acquire_yields.
    + intros v Hv. rewrite (reports_active_no_prefix cfg inp Hp) in Hv.
      intros s1. rewrite decide_inactive by exact Hv. constructor.
  - unfold process_cycle.
    apply keeps_bind; [typeclasses eauto | | intros v; apply decide_keeps; reflexivity].
    unfold_phases. rewrite Hp. keeps_all; reflexivity.
  - intros Hok.
    pose proof (run_eta (process_cycle cfg inp s)) as E. rewrite Hok in E.
    destruct (cycle_correction cfg inp s _ _ E) as ((v & n & Hst & Hint & Hpv) & _ & Hw).
    unfold status_value, corr_waveform in *. rewrite Hp in *.
    injection Hst as <-. injection Hint as <-.
    destruct Hw as (Hc & _).
    apply process_cycle_Ok in E as (v & s1 & t1 & t2 & _ & Hdec & _ & Hv & _).
    rewrite (reports_active_no_prefix cfg inp Hp) in Hv.
    rewrite decide_inactive in Hdec by exact Hv. injection Hdec as Hs _.
    split; [exact Hc |]. split; [exact Hpv |].
    rewrite <- Hs. unfold off_state. simpl.
    split; [apply lookup_insert_eq | reflexivity].
Qed.

Lemma count_nonneg p buf : 0 <= count p buf.
Proof. unfold count. lia. Qed.

(** X11. The two degenerate window lengths. With a negative length the
    interlock never engages, whatever is read. With a length of zero the
    windows are always empty and every completed cycle that reads the
    subsystem as active engages the interlock. *)
Theorem degenerate_window_lengths cfg inp s :
  let r := process_cycle cfg inp s in
  (interlock_buff_length cfg < 0 -> engages (trace_of r) = false)
  /\ (interlock_buff_length cfg = 0 ->
      reachable cfg s -> result_of r = Ok tt ->
      reports_active cfg inp = true ->
      engages (trace_of r) = true
      /\ err_buff (state_of r) = [] /\ laser_amp_buff (state_of r) = []).
Proof.
  intros r. subst r.
  pose proof (run_eta (process_cycle cfg inp s)) as E.
  split.
  - intros Hneg.
    destruct (result_of (process_cycle cfg inp s)) as [[] | e].
    + apply process_cycle_Ok in E as (v & s1 & t1 & t2 & _ & Hdec & Ht & _ & Hq).
      rewrite Ht. apply quiet_trace in Hq as (Hq1 & _).
      rewrite engages_app, Hq1. simpl.
      apply decide_cases in Hdec
        as [(_ & Hc & _) | [(_ & _ & _ & ->) | (_ & _ & ->)]].
      * exfalso. unfold interlock_condition in Hc.
        apply orb_true_iff in Hc as [Hc | Hc]; apply Z.eqb_eq in Hc;
          match type of Hc with
          | count ?p ?b = _ => pose proof (count_nonneg p b)
          end; lia.
      * destruct (truth (pvs s1 !! "TRACKING_ON")
                  && (fgt (fabs (corr_avg s1)) (tracking_tsh s1)
                      && nonempty (prefix_motor cfg))); reflexivity.
      * reflexivity.
    + apply raised_cycle_quiet in E. tauto.
  - intros Hzero Hreach Hok Hact. rewrite Hok in E.
    pose proof E as E'.
    apply process_cycle_Ok in E as (v & s1 & t1 & t2 & Hacq & Hdec & Ht & Hv & Hq).
    rewrite Hact in Hv.
    assert (windows_bounded cfg s1) as (_ & Hbe & Hba).
    { pose proof (acquire_bounded cfg inp s) as H. unfold state_of in H.
      rewrite Hacq in H. apply H, reachable_bounded, Hreach. }
    unfold bounded in Hbe, Hba. rewrite Hzero in Hbe, Hba.
    assert (err_buff s1 = [] /\ laser_amp_buff s1 = []) as [He Ha].
    { split; [destruct (err_buff s1) | destruct (laser_amp_buff s1)];
        try reflexivity; simpl in *; lia. }
    assert (interlock_condition cfg s1 = true) as Hc.
    { unfold interlock_condition. rewrite He, Hzero. reflexivity. }
    rewrite decide_engages in Hdec by assumption.
    injection Hdec as Hs Ht2.
    rewrite Ht, <- Ht2, <- Hs, engages_app. simpl.
    split; [| split; assumption].
    apply orb_true_iff. right.
    destruct (nonempty (prefix_redpitaya cfg)); reflexivity.
Qed.

End CycleEdges.

Section CycleEffectWitnesses.
Import LaserSynch LaserSynchMore Scenario ScenarioEdges.

Lemma pll_on_variable_holds_status_read_witness :
  let s1 := state_of (loop_body cfg2 (reads 1 3) start) in
  let r := process_cycle cfg2 (reads 1 3) s1 in
  r = (Ok tt, state_of r, trace_of r)
  /\ engages (trace_of r) = true
  /\ exists v n, status_value cfg2 (reads 1 3) = Some v
                 /\ int_of_val v = Ok n
                 /\ pvs (state_of r) !! "PLL_ON" = Some (of_Z n).
Proof.
  intros s1 r.
  assert (r = (Ok tt, state_of r, trace_of r)) as H1 by (vm_compute; reflexivity).
  assert (engages (trace_of r) = true) as H2 by (vm_compute; reflexivity).
  split; [exact H1 |]. split; [exact H2 |].
  destruct (pll_on_variable_holds_status_read cfg2 (reads 1 3) s1
              (state_of r) (trace_of r) H1) as (v & n & Ha & Hb & Hc & _).
  exists v, n. split; [exact Ha |]. split; [exact Hb | exact Hc].
Defined.

Lemma message_reports_cycle_witness :
  let r := process_cycle cfg2 (reads 1 0) start in
  r = (Ok tt, state_of r, trace_of r)
  /\ message (state_of r) =
       "PLL:" +:+ (if reports_active cfg2 (reads 1 0)
                      && negb (engages (trace_of r))
                   then "ON" else "OFF")
       +:+ " Track:" +:+ (if truth (pvs (state_of r) !! "TRACKING_ON")
                          then "ON" else "OFF").
Proof.
  intros r.
  assert (r = (Ok tt, state_of r, trace_of r)) as H1 by (vm_compute; reflexivity).
  split; [exact H1 |].
  exact (message_reports_cycle cfg2 (reads 1 0) start
           (state_of r) (trace_of r) H1).
Defined.

Lemma status_none_fails_cycle_witness :
  nonempty (prefix_redpitaya cfg2) = true
  /\ in_pll_status reads_no_status = Returned None
  /\ exists e, process_cycle cfg2 reads_no_status start = (Raised e, start, []).
Proof.
  assert (nonempty (prefix_redpitaya cfg2) = true) as H1 by reflexivity.
  assert (in_pll_status reads_no_status = Returned None) as H2 by reflexivity.
  split; [exact H1 |]. split; [exact H2 |].
  destruct (status_none_fails_cycle cfg2 reads_no_status start H1 H2)
    as (e & He & _).
  exists e. exact He.
Defined.

Lemma empty_error_waveform_fails_cycle_witness :
  nonempty (prefix_redpitaya cfg2) = true
  /\ in_wave_err reads_empty_err = Returned (Some [])
  /\ is_ok (result_of (process_cycle cfg2 reads_empty_err start)) = false.
Proof.
  assert (nonempty (prefix_redpitaya cfg2) = true) as H1 by reflexivity.
  assert (in_wave_err reads_empty_err = Returned (Some [])) as H2 by reflexivity.
  split; [exact H1 |]. split; [exact H2 |].
  exact (proj1 (empty_error_waveform_fails_cycle cfg2 reads_empty_err start H1 H2)).
Defined.

Lemma no_redpitaya_no_actuation_witness :
  nonempty (prefix_redpitaya cfg_amp_only) = false
  /\ err_buff (state_of (process_cycle cfg_amp_only (reads 1 3) start))
     = err_buff start.
Proof.
  assert (nonempty (prefix_redpitaya cfg_amp_only) = false) as H1 by reflexivity.
  split; [exact H1 |].
  exact (proj1 (proj2 (no_redpitaya_no_actuation cfg_amp_only (reads 1 3) start H1))).
Defined.

Lemma degenerate_window_lengths_witness :
  let r := process_cycle cfg_zero_length (reads 1 0) start in
  interlock_buff_length cfg_zero_length = 0
  /\ reachable cfg_zero_length start
  /\ result_of r = Ok tt
  /\ reports_active cfg_zero_length (reads 1 0) = true
  /\ engages (trace_of r) = true.
Proof.
  intros r.
  assert (interlock_buff_length cfg_zero_length = 0) as H1 by reflexivity.
  assert (reachable cfg_zero_length start) as H2 by apply reach_init.
  assert (result_of r = Ok tt) as H3 by (vm_compute; reflexivity).
  assert (reports_active cfg_zero_length (reads 1 0) = true) as H4 by reflexivity.
  split; [exact H1 |]. split; [exact H2 |]. split; [exact H3 |].
  split; [exact H4 |].
  exact (proj1 (proj2 (degenerate_window_lengths cfg_zero_length (reads 1 0) start)
                  H1 H2 H3 H4)).
Defined.

End CycleEffectWitnesses.

(* ===================================================================== *)
(** * The loop, the counter and the tracking switch                       *)
(* ===================================================================== *)

Section LoopProperties.
Import LaserSynch LaserSynchMore.

Lemma loop_body_disabled cfg inp s :
  truth (pvs s !! "ENABLE") = false ->
  loop_body cfg inp s =
    (Ok tt, s, [Log Debug "Task disabled, skipping cycle";
                Sleep (loop_period cfg)]).
Proof.
  intros Hen. unfold loop_body, bind, get_pv. unfold_prims. unfold emit.
  rewrite Hen. reflexivity.
Qed.

(** The three ways a turn of the loop can go. *)
Lemma loop_body_cases cfg inp s :
  (truth (pvs s !! "ENABLE") = false
   /\ loop_body cfg inp s =
        (Ok tt, s, [Log Debug "Task disabled, skipping cycle";
                    Sleep (loop_period cfg)]))
  \/ (exists s1 t1,
        truth (pvs s !! "ENABLE") = true
        /\ process_cycle cfg inp s = (Ok tt, s1, t1)
        /\ loop_body cfg inp s =
             (Ok tt, with_cycle (cycle s1 + 1) s1,
              t1 ++ [Sleep (loop_period cfg)]))
  \/ (exists e s1 t1,
        truth (pvs s !! "ENABLE") = true
        /\ process_cycle cfg inp s = (Raised e, s1, t1)
        /\ loop_body cfg inp s =
             (Ok tt, error_state e s1,
              t1 ++ [Log Error ("Error in processing cycle: " +:+ exn_str e);
                     Sleep (loop_period cfg)])).
Proof.
  destruct (truth (pvs s !! "ENABLE")) eqn:Hen.
  - right.
    destruct (process_cycle cfg inp s) as [[[[] | e] s1] t1] eqn:Hrun.
    + left. exists s1, t1. repeat split.
      apply loop_body_Ok; assumption.
    + right. exists e, s1, t1. repeat split.
      apply loop_body_Raised; assumption.
  - left. split; [reflexivity |]. apply loop_body_disabled, Hen.
Qed.

Lemma loop_body_cycle cfg inp s :
  cycle (state_of (loop_body cfg inp s)) =
    cycle s + (if truth (pvs s !! "ENABLE")
                  && is_ok (result_of (process_cycle cfg inp s))
               then 1 else 0).
Proof.
  pose proof (process_cycle_cycle cfg inp s) as Hc.
  unfold unchanged, state_of in Hc.
  destruct (loop_body_cases cfg inp s)
    as [(Hen & ->) | [(s1 & t1 & Hen & Hrun & ->) | (e & s1 & t1 & Hen & Hrun & ->)]];
    rewrite Hen; unfold state_of, result_of; simpl.
  - lia.
  - rewrite Hrun in Hc |- *. simpl in *. lia.
  - rewrite Hrun in Hc |- *. simpl in *. lia.
Qed.

(** X12. A turn of the loop advances the cycle counter by one exactly when
    the task is enabled and the cycle completes; a disabled turn changes
    nothing in the task and only logs and sleeps. *)
Theorem turn_counts_completed_cycle cfg inp s :
  let r := loop_body cfg inp s in
  cycle (state_of r) =
    cycle s + (if truth (pvs s !! "ENABLE")
                  && is_ok (result_of (process_cycle cfg inp s))
               then 1 else 0)
  /\ (truth (pvs s !! "ENABLE") = false ->
      state_of r = s /\ caputs (trace_of r) = []).
Proof.
  intros r. subst r. split; [apply loop_body_cycle |].
  intros Hen. rewrite (loop_body_disabled cfg inp s Hen). auto.
Qed.

Lemma state_of_mk {A : Type} (r : outcome A) (s : task) (t : list event) :
  state_of (r, s, t) = s.
Proof. reflexivity. Qed.

Lemma trace_of_mk {A : Type} (r : outcome A) (s : task) (t : list event) :
  trace_of (r, s, t) = t.
Proof. reflexivity. Qed.

Lemma external_writes_run ws s :
  external_writes ws s =
    (Ok tt, with_pvs (fold_left (fun p w => <[w.1 := w.2]> p) ws (pvs s)) s, []).
Proof. reflexivity. Qed.

Lemma loop_body_total cfg inp s : result_of (loop_body cfg inp s) = Ok tt.
Proof.
  destruct (loop_body_cases cfg inp s)
    as [(_ & ->) | [(s1 & t1 & _ & _ & ->) | (e & s1 & t1 & _ & _ & ->)]];
    reflexivity.
Qed.

Lemma run_loop_cons cfg tk ticks s :
  run_loop cfg (tk :: ticks) s =
    let s0 := with_pvs (fold_left (fun p w => <[w.1 := w.2]> p)
                          (tick_writes tk) (pvs s)) s in
    if tick_running tk then
      let r1 := loop_body cfg (tick_inputs tk) s0 in
      let r2 := run_loop cfg ticks (state_of r1) in
      (result_of r2, state_of r2, trace_of r1 ++ trace_of r2)
    else (Ok tt, s0, []).
Proof.
  simpl. unfold bind at 1. rewrite external_writes_run.
  destruct (tick_running tk); [| reflexivity].
  set (s0 := with_pvs _ s).
  pose proof (loop_body_total cfg (tick_inputs tk) s0) as Hok.
  unfold bind.
  destruct (loop_body cfg (tick_inputs tk) s0) as [[r1 s1] t1].
  unfold result_of in Hok. simpl in Hok. subst r1.
  unfold state_of, trace_of, result_of. simpl.
  destruct (run_loop cfg ticks s1) as [[r2 s2] t2].
  reflexivity.
Qed.

(** X13. Over any run of the loop the cycle counter never goes down and
    grows by at most one per turn. *)
Theorem counter_is_monotone cfg ticks s :
  let s' := state_of (run_loop cfg ticks s) in
  cycle s <= cycle s' <= cycle s + Z.of_nat (length ticks).
Proof.
  revert s. induction ticks as [| tk ticks IH]; intros s s'; subst s'.
  - unfold state_of. simpl. lia.
  - rewrite run_loop_cons. cbv zeta.
    destruct (tick_running tk).
    + rewrite !state_of_mk.
      set (s0 := with_pvs _ s).
      pose proof (loop_body_cycle cfg (tick_inputs tk) s0) as H1.
      specialize (IH (state_of (loop_body cfg (tick_inputs tk) s0))).
      cbv zeta in IH. change (cycle s0) with (cycle s) in H1.
      destruct (truth (pvs s0 !! "ENABLE")
                && is_ok (result_of (process_cycle cfg (tick_inputs tk) s0)));
        cbn [length]; lia.
    + unfold state_of. simpl. lia.
Qed.

End LoopProperties.

Section TrackingSwitch.
Import LaserSynch LaserSynchMore.

Lemma cycle_tracking_off cfg inp s :
  truth (pvs s !! "TRACKING_ON") = false ->
  truth (pvs (state_of (process_cycle cfg inp s)) !! "TRACKING_ON") = false
  /\ motor_steps (trace_of (process_cycle cfg inp s)) = [].
Proof.
  intros Hoff.
  pose proof (acquire_pv cfg inp "TRACKING_ON" ltac:(not_written) s) as Hk.
  unfold unchanged, state_of in Hk.
  pose proof (run_eta (process_cycle cfg inp s)) as E.
  destruct (result_of (process_cycle cfg inp s)) as [[] | e].
  - pose proof E as E'.
    apply process_cycle_Ok in E as (v & s1 & t1 & t2 & Hacq & Hdec & Ht & _ & Hq).
    rewrite Hacq in Hk. simpl in Hk. rewrite <- Hk in Hoff.
    apply quiet_trace in Hq as (_ & Hq2 & _).
    rewrite (cycle_motor_steps cfg inp s _ _ E').
    assert (truth (pvs (state_of (process_cycle cfg inp s)) !! "TRACKING_ON")
            = false) as H.
    { apply decide_cases in Hdec
        as [(_ & _ & Hs' & _) | [(_ & _ & Hs' & _) | (_ & Hs' & _)]];
        rewrite Hs'.
      - unfold off_state. simpl. rewrite lookup_insert_eq. reflexivity.
      - simpl. exact Hoff.
      - unfold off_state. simpl. rewrite lookup_insert_eq. reflexivity. }
    rewrite H. auto.
  - pose proof (raised_cycle_quiet cfg inp s e _ _ E) as (_ & Hs & _).
    split; [| exact Hs].
    apply process_cycle_Raised in E. rewrite E in Hk. simpl in Hk.
    rewrite Hk. exact Hoff.
Qed.

Lemma loop_body_tracking_off cfg inp s :
  truth (pvs s !! "TRACKING_ON") = false ->
  truth (pvs (state_of (loop_body cfg inp s)) !! "TRACKING_ON") = false
  /\ motor_steps (trace_of (loop_body cfg inp s)) = [].
Proof.
  intros Hoff.
  destruct (cycle_tracking_off cfg inp s Hoff) as [Hs Ht].
  destruct (loop_body_cases cfg inp s)
    as [(_ & ->) | [(s1 & t1 & _ & Hrun & ->) | (e & s1 & t1 & _ & Hrun & ->)]].
  - auto.
  - rewrite Hrun in Hs, Ht. rewrite state_of_mk, trace_of_mk in *.
    rewrite motor_steps_app, Ht. auto.
  - rewrite Hrun in Hs, Ht. rewrite state_of_mk, trace_of_mk in *.
    rewrite motor_steps_app, Ht. auto.
Qed.

Lemma writes_leave name ws (p : gmap string pyfloat) :
  Forall (fun w : string * pyfloat => w.1 <> name) ws ->
  fold_left (fun p w => <[w.1 := w.2]> p) ws p !! name = p !! name.
Proof.
  intros H. revert p. induction H as [| w ws Hw _ IH]; intros p; simpl.
  - reflexivity.
  - rewrite IH. apply lookup_insert_ne. exact Hw.
Qed.

(** X14. The task never switches tracking on. Over a run of the loop in
    which nothing from outside writes TRACKING_ON, a tracking switch that
    is off stays off and no motor step is issued, whatever is read. *)
Theorem tracking_stays_off cfg ticks s :
  Forall (leaves "TRACKING_ON") ticks ->
  truth (pvs s !! "TRACKING_ON") = false ->
  let r := run_loop cfg ticks s in
  truth (pvs (state_of r) !! "TRACKING_ON") = false
  /\ motor_steps (trace_of r) = [].
Proof.
  intros Hall. revert s.
  induction Hall as [| tk ticks Htk _ IH]; intros s Hoff r; subst r.
  - auto.
  - rewrite run_loop_cons. cbv zeta.
    set (s0 := with_pvs _ s).
    assert (truth (pvs s0 !! "TRACKING_ON") = false) as Hoff0.
    { subst s0. simpl. rewrite (writes_leave _ _ _ Htk). exact Hoff. }
    destruct (tick_running tk).
    + rewrite state_of_mk, trace_of_mk.
      destruct (loop_body_tracking_off cfg (tick_inputs tk) s0 Hoff0) as [H1 H2].
      destruct (IH _ H1) as [H3 H4].
      rewrite motor_steps_app, H2, H4. auto.
    + rewrite state_of_mk, trace_of_mk. auto.
Qed.

End TrackingSwitch.

Section Startup.
Import LaserSynch LaserSynchMore.

Lemma push_evict_length_le {A : Type} (n : Z) (buf : list A) (x : A) :
  (length (push_evict n buf x) <= length buf + 1)%nat.
Proof.
  unfold push_evict. destruct (Z.of_nat (length (buf ++ [x])) >? n).
  - destruct buf; simpl; [lia |]. rewrite length_app. simpl. lia.
  - rewrite length_app. simpl. lia.
Qed.

Lemma count_le_length p buf : count p buf <= Z.of_nat (length buf).
Proof. unfold count. pose proof (filter_length_le p buf). lia. Qed.

Lemma cycles_no_trip cfg inps : forall s k,
  Z.of_nat (length (err_buff s)) <= k ->
  Z.of_nat (length (laser_amp_buff s)) <= k ->
  k + Z.of_nat (length inps) < interlock_buff_length cfg ->
  engages (trace_of (cycles cfg inps s)) = false.
Proof.
  induction inps as [| inp inps IH]; intros s k He Ha Hk.
  - reflexivity.
  - cbn [cycles length] in *. unfold bind at 1.
    destruct (process_cycle cfg inp s) as [[[[] | e] s1] t1] eqn:Hrun.
    + unfold bind at 1, step_cycle, modify.
      destruct (process_cycle_Ok_windows cfg inp s s1 t1 Hrun) as [Hwe Hwa].
      assert (Z.of_nat (length (err_buff s1)) <= k + 1
              /\ Z.of_nat (length (laser_amp_buff s1)) <= k + 1) as [He1 Ha1].
      { rewrite Hwe, Hwa. split.
        - destruct (err_sample cfg inp); [| lia].
          pose proof (push_evict_length_le (interlock_buff_length cfg)
                        (err_buff s) p). lia.
        - destruct (amp_sample cfg inp); [| lia].
          pose proof (push_evict_length_le (interlock_buff_length cfg)
                        (laser_amp_buff s) p). lia. }
      assert (engages t1 = false) as Ht1.
      { apply process_cycle_Ok in Hrun
          as (v & sm & ta & tb & Hacq & Hdec & -> & _ & Hq).
        apply quiet_trace in Hq as (Hq1 & _).
        rewrite engages_app, Hq1. simpl.
        assert (err_buff s1 = err_buff sm /\ laser_amp_buff s1 = laser_amp_buff sm)
          as [E1 E2].
        { pose proof (decide_keeps cfg err_buff v ltac:(reflexivity)
                        ltac:(reflexivity) sm) as H1.
          pose proof (decide_keeps cfg laser_amp_buff v ltac:(reflexivity)
                        ltac:(reflexivity) sm) as H2.
          unfold unchanged, state_of in H1, H2. rewrite Hdec in H1, H2. auto. }
        apply decide_cases in Hdec
          as [(_ & Hc & _) | [(_ & _ & _ & ->) | (_ & _ & ->)]].
        - exfalso. unfold interlock_condition in Hc.
          apply orb_true_iff in Hc as [Hc | Hc]; apply Z.eqb_eq in Hc.
          + pose proof (count_le_length
                          (fun e => fgt e (pll_err_tsh sm)) (err_buff sm)).
            rewrite <- E1 in *. lia.
          + pose proof (count_le_length
                          (fun a => flt a (laser_amp_tsh sm)) (laser_amp_buff sm)).
            rewrite <- E2 in *. lia.
        - destruct (truth (pvs sm !! "TRACKING_ON")
                    && (fgt (fabs (corr_avg sm)) (tracking_tsh sm)
                        && nonempty (prefix_motor cfg))); reflexivity.
        - reflexivity. }
      specialize (IH (with_cycle (cycle s1 + 1) s1) (k + 1) He1 Ha1 ltac:(lia)).
      destruct (cycles cfg inps (with_cycle (cycle s1 + 1) s1)) as [[r2 s2] t2].
      rewrite trace_of_mk in *. simpl.
      rewrite engages_app, Ht1. exact IH.
    + rewrite trace_of_mk. apply (raised_cycle_quiet cfg inp s e s1 t1 Hrun).
Qed.

(** X15. Starting with empty interlock windows, the interlock cannot
    engage during the first L - 1 cycles, whatever the samples are: it
    takes L samples to fill a window. *)
Theorem no_trip_before_windows_fill cfg inps s :
  err_buff s = [] -> laser_amp_buff s = [] ->
  Z.of_nat (length inps) < interlock_buff_length cfg ->
  engages (trace_of (cycles cfg inps s)) = false.
Proof.
  intros He Ha Hlen.
  apply (cycles_no_trip cfg inps s 0); [rewrite He | rewrite Ha |];
    simpl; lia.
Qed.

End Startup.

Section InitAndCleanup.
Import LaserSynch LaserSynchMore.

Lemma caputs_cons pv v t : caputs (Caput pv v :: t) = (pv, v) :: caputs t.
Proof. reflexivity. Qed.

Lemma caput_all_run fails cmds s :
  exists r t, caput_all fails cmds s = (r, s, t)
              /\ caputs t = until_failure fails cmds.
Proof.
  induction cmds as [| [pv v] cmds (r & t & IH & Hc)].
  - exists (Ok tt), []. split; reflexivity.
  - cbn [caput_all until_failure]. unfold bind, caput_or_raise.
    destruct (fails pv) as [e |].
    + exists (Raised e), []. split; reflexivity.
    + unfold caput, emit. rewrite IH. exists r, (Caput pv v :: t).
      split; [reflexivity |]. rewrite caputs_cons, Hc. reflexivity.
Qed.

Lemma init_redpitaya_run cfg fails s :
  exists t, init_redpitaya cfg fails s = (Ok tt, s, t)
            /\ caputs t = until_failure fails (redpitaya_commands cfg).
Proof.
  destruct (caput_all_run fails (redpitaya_commands cfg) s) as (r & t & H & Hc).
  unfold init_redpitaya, try_except, bind. rewrite H.
  destruct r as [[] | e]; unfold log, emit.
  - eexists. split; [reflexivity |].
    unfold caputs in *. rewrite omap_app, Hc. simpl. apply app_nil_r.
  - eexists. split; [reflexivity |].
    unfold caputs in *. rewrite omap_app, Hc. simpl. apply app_nil_r.
Qed.

Lemma init_motor_run cfg fails s :
  exists t, init_motor cfg fails s = (Ok tt, s, t)
            /\ caputs t =
               if works fails (pv_of (prefix_motor cfg) ":m0.HLM")
               then [(pv_of (prefix_motor cfg) ":m0.HLM", PutStr "2.6")]
               else [].
Proof.
  unfold init_motor, try_except, bind, caput_or_raise, works.
  destruct (fails (pv_of (prefix_motor cfg) ":m0.HLM"));
    eexists; split; reflexivity.
Qed.

Lemma initialize_run cfg fails s :
  exists t,
    initialize cfg fails s = (Ok tt, emptied s, t)
    /\ caputs t =
       (if nonempty (prefix_redpitaya cfg)
        then until_failure fails (redpitaya_commands cfg) else [])
       ++ (if nonempty (prefix_motor cfg)
              && works fails (pv_of (prefix_motor cfg) ":m0.HLM")
           then [(pv_of (prefix_motor cfg) ":m0.HLM", PutStr "2.6")]
           else []).
Proof.
  destruct (init_redpitaya_run cfg fails (emptied s)) as (t1 & H1 & Hc1).
  destruct (init_motor_run cfg fails (emptied s)) as (t2 & H2 & Hc2).
  unfold initialize, bind, log, log_num, emit, modify.
  fold (emptied s).
  destruct (nonempty (prefix_redpitaya cfg)), (nonempty (prefix_motor cfg));
    unfold ret;
    repeat first [rewrite H1 | rewrite H2 | progress cbv beta iota];
    eexists; (split; [reflexivity |]); unfold caputs in *; simpl;
    rewrite ?omap_app, ?Hc1, ?Hc2; simpl; rewrite ?app_nil_r; reflexivity.
Qed.

Lemma run_loop_bounded cfg ticks :
  keeps (maintains (windows_bounded cfg)) (run_loop cfg ticks).
Proof.
  induction ticks as [| tk ticks IH]; simpl.
  - keeps_all.
  - apply keeps_bind; [typeclasses eauto | | intros _].
    + unfold external_writes. keeps_all. unfold maintains. auto.
    + destruct (tick_running tk); [| keeps_all].
      apply keeps_bind; [typeclasses eauto | apply loop_body_bounded |].
      intros _. exact IH.
Qed.

(** X16. From [initialize] on, through any run of the loop - whatever is
    read, whatever fails, whatever is written from outside - no window
    ever holds more samples than its capacity (none at all for a capacity
    that is not positive), whatever the task object held before. *)
Theorem windows_never_exceed_capacity cfg fails ticks s0 :
  let s := state_of (run_loop cfg ticks (state_of (initialize cfg fails s0))) in
  Z.of_nat (length (corr_buff s)) <= Z.max 0 (avg_num cfg)
  /\ Z.of_nat (length (err_buff s)) <= Z.max 0 (interlock_buff_length cfg)
  /\ Z.of_nat (length (laser_amp_buff s)) <= Z.max 0 (interlock_buff_length cfg).
Proof.
  intros s. subst s.
  destruct (initialize_run cfg fails s0) as (t & -> & _).
  rewrite state_of_mk.
  apply (run_loop_bounded cfg ticks (emptied s0)).
  unfold windows_bounded, bounded, emptied. simpl. lia.
Qed.

(** X17. [initialize] never raises and empties the three windows. A
    [caput] that fails during the set-up of the RedPitaya stops that
    set-up at the failing command - the commands before it have been
    issued, those after it are not - but the motor limit is still written;
    and a failing motor write is contained in the same way. *)
Theorem initialize_contains_failures cfg fails s :
  let r := initialize cfg fails s in
  result_of r = Ok tt
  /\ corr_buff (state_of r) = [] /\ err_buff (state_of r) = []
  /\ laser_amp_buff (state_of r) = []
  /\ pvs (state_of r) = pvs s /\ cycle (state_of r) = cycle s
  /\ caputs (trace_of r) =
       (if nonempty (prefix_redpitaya cfg)
        then until_failure fails (redpitaya_commands cfg) else [])
       ++ (if nonempty (prefix_motor cfg)
              && works fails (pv_of (prefix_motor cfg) ":m0.HLM")
           then [(pv_of (prefix_motor cfg) ":m0.HLM", PutStr "2.6")]
           else []).
Proof.
  intros r. subst r.
  destruct (initialize_run cfg fails s) as (t & -> & Hc).
  repeat split. exact Hc.
Qed.

(** X18. [cleanup] never raises: whether or not the write to the pin
    succeeds, the task ends with status END and message Stopped, its
    windows, process variables and counter untouched. With a RedPitaya
    configured and a working write, "0" is written to the pin. *)
Theorem cleanup_always_ends cfg fails s :
  let r := cleanup cfg fails s in
  result_of r = Ok tt
  /\ state_of r = with_message "Stopped" (with_status "END" s)
  /\ pin_writes cfg (trace_of r) =
       (if nonempty (prefix_redpitaya cfg) && works fails (pin cfg)
        then [PutStr "0"] else [])
  /\ motor_steps (trace_of r) = [].
Proof.
  intros r. subst r.
  unfold cleanup, bind, try_except, caput_or_raise, works.
  unfold_prims. unfold modify, emit, raise, ret.
  destruct (nonempty (prefix_redpitaya cfg)); [| repeat split].
  destruct (fails (pin cfg)); simpl; repeat split.
  unfold pin_writes. simpl. rewrite String.eqb_refl. reflexivity.
Qed.

End InitAndCleanup.

Section LoopWitnesses.
Import LaserSynch LaserSynchMore Scenario.

Lemma turn_counts_completed_cycle_witness :
  truth (pvs (initial_task ∅) !! "ENABLE") = false
  /\ state_of (loop_body cfg2 (reads 1 0) (initial_task ∅)) = initial_task ∅.
Proof.
  assert (truth (pvs (initial_task ∅) !! "ENABLE") = false) as H by reflexivity.
  split; [exact H |].
  exact (proj1 (proj2 (turn_counts_completed_cycle cfg2 (reads 1 0)
                         (initial_task ∅)) H)).
Defined.

Lemma tracking_stays_off_witness :
  let s := state_of (process_cycle cfg2 (reads_off 1 0) start) in
  let ticks := [turn (reads 1 0); turn (reads 1 0)] in
  Forall (leaves "TRACKING_ON") ticks
  /\ truth (pvs s !! "TRACKING_ON") = false
  /\ motor_steps (trace_of (run_loop cfg2 ticks s)) = [].
Proof.
  intros s ticks.
  assert (Forall (leaves "TRACKING_ON") ticks) as H1
    by (repeat constructor).
  assert (truth (pvs s !! "TRACKING_ON") = false) as H2
    by (vm_compute; reflexivity).
  split; [exact H1 |]. split; [exact H2 |].
  exact (proj2 (tracking_stays_off cfg2 ticks s H1 H2)).
Defined.

Lemma no_trip_before_windows_fill_witness :
  err_buff start = [] /\ laser_amp_buff start = []
  /\ Z.of_nat (length [reads 1 3]) < interlock_buff_length cfg2
  /\ engages (trace_of (cycles cfg2 [reads 1 3] start)) = false.
Proof.
  assert (err_buff start = []) as H1 by reflexivity.
  assert (laser_amp_buff start = []) as H2 by reflexivity.
  assert (Z.of_nat (length [reads 1 3]) < interlock_buff_length cfg2) as H3
    by (simpl; lia).
  split; [exact H1 |]. split; [exact H2 |]. split; [exact H3 |].
  exact (no_trip_before_windows_fill cfg2 [reads 1 3] start H1 H2 H3).
Defined.

End LoopWitnesses.

(* ===================================================================== *)
(** * The motor monitor                                                   *)
(* ===================================================================== *)

Section MonitorNames.

(** The variables a pass writes are never the ones it reads. *)
Ltac peel name H :=
  repeat (destruct name as [| ? name]; simpl in H;
          [discriminate H | injection H as _ H]);
  destruct name; discriminate H.

Lemma pos_is_not_enable name : name +:+ "_POS" ≠ "ENABLE".
Proof. intros H. peel name H. Qed.

Lemma moving_is_not_enable name : name +:+ "_MOVING" ≠ "ENABLE".
Proof. intros H. peel name H. Qed.

Lemma pos_is_not_moving name : name +:+ "_POS" ≠ "MOVING".
Proof. intros H. peel name H. Qed.

Lemma moving_is_not_moving name : name +:+ "_MOVING" ≠ "MOVING".
Proof. intros H. peel name H. Qed.

End MonitorNames.

Section MonitorPass.
Import MotorMonitor.

Lemma read_motor_ext name p (prev1 prev2 : gmap string bool) :
  prev1 !! name = prev2 !! name ->
  read_motor name p prev1 = read_motor name p prev2.
Proof. intros H. unfold read_motor. rewrite H. reflexivity. Qed.

(** A read that succeeds found the motor in [previous_moving_state]. *)
Lemma read_motor_tracked name p prev b pos was :
  read_motor name p prev = inr (b, pos, was) -> prev !! name = Some was.
Proof.
  unfold read_motor.
  destruct (match probe_moving p with
            | Some r => r | None => Returned false end); [| discriminate].
  destruct (match probe_position p with
            | Some r => r
            | None => match probe_readback p with
                      | Some (Returned v) => Returned v
                      | _ => Returned None
                      end
            end); [| discriminate].
  destruct (prev !! name); [| discriminate].
  intros [= _ _ ->]. reflexivity.
Qed.

Lemma motor_read_dom name p (prev1 prev2 : gmap string bool) :
  (is_Some (prev1 !! name) <-> is_Some (prev2 !! name)) ->
  motor_read prev1 (name, p) = motor_read prev2 (name, p).
Proof.
  intros H. unfold motor_read, read_motor. simpl.
  destruct (match probe_moving p with
            | Some r => r | None => Returned false end); [| reflexivity].
  destruct (match probe_position p with
            | Some r => r
            | None => match probe_readback p with
                      | Some (Returned v) => Returned v
                      | _ => Returned None
                      end
            end); [| reflexivity].
  destruct (prev1 !! name) as [w1 |] eqn:H1, (prev2 !! name) as [w2 |] eqn:H2;
    try reflexivity.
  - destruct (proj1 H) as [? [=]]. eauto.
  - destruct (proj2 H) as [? [=]]. eauto.
Qed.

Lemma monitor_motor_failed declared name p prev e s :
  read_motor name p prev = inl e ->
  monitor_motor declared name p prev s =
    (Ok prev, s,
     [Log Error ("Error monitoring " +:+ name +:+ ": "
                 +:+ monitor_error_str e)]).
Proof. intros H. unfold monitor_motor. rewrite H. reflexivity. Qed.

Lemma transition_log_run name b was pos s :
  exists t, transition_log name b was pos s = (Ok tt, s, t).
Proof.
  unfold transition_log, log_val, emit, ret.
  destruct b, was; simpl; eauto.
Qed.

Lemma monitor_motor_read declared name p prev b pos was s :
  read_motor name p prev = inr (b, pos, was) ->
  exists s' t,
    monitor_motor declared name p prev s = (Ok (<[name := b]> prev), s', t)
    /\ pvs s' !! "MOVING" = Some (of_bool b)
    /\ (forall k, k ≠ name +:+ "_POS" -> k ≠ name +:+ "_MOVING" ->
                  k ≠ "MOVING" -> pvs s' !! k = pvs s !! k)
    /\ cycle s' = cycle s /\ status s' = status s /\ message s' = message s.
Proof.
  intros H. unfold monitor_motor. rewrite H.
  destruct (transition_log_run name b was pos s) as [t Ht].
  unfold bind. rewrite Ht.
  unfold set_pv_val, set_pv, modify, ret.
  destruct (declared (name +:+ "_POS")), (declared (name +:+ "_MOVING")),
    pos as [a |]; simpl;
    (do 2 eexists; split; [reflexivity |];
     split; [apply lookup_insert_eq |];
     split; [| repeat split];
     intros k K1 K2 K3; simpl;
     rewrite ?lookup_insert_ne, ?lookup_delete_ne by congruence;
     reflexivity).
Qed.

(** One motor of the pass: it never raises, and it keeps the keys of
    [previous_moving_state]. *)
Lemma monitor_motor_run declared name p prev s :
  exists prev' s' t,
    monitor_motor declared name p prev s = (Ok prev', s', t)
    /\ (forall k, is_Some (prev' !! k) <-> is_Some (prev !! k))
    /\ pvs s' !! "ENABLE" = pvs s !! "ENABLE"
    /\ pvs s' !! "MOVING" =
         match motor_read prev (name, p) with
         | Some b => Some (of_bool b)
         | None => pvs s !! "MOVING"
         end
    /\ cycle s' = cycle s /\ status s' = status s /\ message s' = message s.
Proof.
  unfold motor_read. simpl.
  destruct (read_motor name p prev) as [e | [[b pos] was]] eqn:H.
  - rewrite (monitor_motor_failed _ _ _ _ _ _ H).
    do 3 eexists. split; [reflexivity |]. repeat split; auto.
  - destruct (monitor_motor_read declared _ _ _ _ _ _ s H)
      as (s' & t & Hrun & Hm & Hk & Hc & Hs & Hmsg).
    exists (<[name := b]> prev), s', t. split; [exact Hrun |].
    split; [| split; [| split; [exact Hm | auto]]].
    + intros k. destruct (decide (k = name)) as [-> | Hne].
      * rewrite lookup_insert_eq, (read_motor_tracked _ _ _ _ _ _ H).
        split; eauto.
      * rewrite lookup_insert_ne by congruence. reflexivity.
    + apply Hk; [| | discriminate]; intros E; symmetry in E.
      * exact (pos_is_not_enable _ E).
      * exact (moving_is_not_enable _ E).
Qed.

Lemma omap_step {A B : Type} (f : A -> option B) (x : A) (l : list A) :
  omap f (x :: l) =
    match f x with
    | Some y => y :: omap f l
    | None => omap f l
    end.
Proof. reflexivity. Qed.

Lemma omap_motor_read_dom (prev1 prev2 : gmap string bool)
    (probes : list (string * probe)) :
  (forall k, is_Some (prev1 !! k) <-> is_Some (prev2 !! k)) ->
  omap (motor_read prev1) probes = omap (motor_read prev2) probes.
Proof.
  intros H. induction probes as [| [name p] probes IH]; [reflexivity |].
  rewrite !omap_step, IH, (motor_read_dom name p prev1 prev2 (H name)).
  reflexivity.
Qed.

(** A whole pass. *)
Lemma monitor_motors_run declared probes : forall prev s,
  exists prev' s' t,
    monitor_motors declared probes prev s = (Ok prev', s', t)
    /\ (forall k, is_Some (prev' !! k) <-> is_Some (prev !! k))
    /\ pvs s' !! "ENABLE" = pvs s !! "ENABLE"
    /\ pvs s' !! "MOVING" =
         match last (omap (motor_read prev) probes) with
         | Some b => Some (of_bool b)
         | None => pvs s !! "MOVING"
         end
    /\ cycle s' = cycle s /\ status s' = status s /\ message s' = message s.
Proof.
  induction probes as [| [name p] probes IH]; intros prev s.
  - exists prev, s, []. repeat split; auto.
  - destruct (monitor_motor_run declared name p prev s)
      as (prev1 & s1 & t1 & H1 & Hd1 & He1 & Hm1 & Hc1 & Hs1 & Hg1).
    destruct (IH prev1 s1)
      as (prev2 & s2 & t2 & H2 & Hd2 & He2 & Hm2 & Hc2 & Hs2 & Hg2).
    exists prev2, s2, (t1 ++ t2).
    split; [simpl; unfold bind; rewrite H1, H2; reflexivity |].
    split; [intros k; rewrite Hd2; apply Hd1 |].
    split; [congruence |].
    split; [| repeat split; congruence].
    rewrite Hm2, (omap_motor_read_dom prev1 prev probes Hd1), Hm1.
    rewrite omap_step.
    destruct (motor_read prev (name, p)) as [b |]; [| reflexivity].
    rewrite last_cons.
    destruct (last (omap (motor_read prev) probes)); reflexivity.
Qed.

End MonitorPass.

Section MonitorTurns.
Import MotorCheck MotorMonitor.

Lemma monitor_turn_run declared probes prev s :
  exists prev' s' t,
    monitor_turn declared probes prev s = (Ok prev', s', t)
    /\ (forall k, is_Some (prev' !! k) <-> is_Some (prev !! k))
    /\ pvs s' !! "ENABLE" = pvs s !! "ENABLE"
    /\ status s' = status s /\ message s' = message s
    /\ cycle s' = (if truth (pvs s !! "ENABLE") then cycle s + 1 else cycle s)
    /\ (truth (pvs s !! "ENABLE") = false -> prev' = prev /\ s' = s).
Proof.
  unfold monitor_turn, bind, get_pv.
  destruct (truth (pvs s !! "ENABLE")) eqn:Hen; simpl.
  - destruct (monitor_motors_run declared probes prev s)
      as (prev1 & s1 & t1 & H1 & Hd1 & He1 & _ & Hc1 & Hs1 & Hg1).
    unfold try_except, bind. rewrite H1. simpl.
    do 3 eexists. split; [reflexivity |]. simpl.
    repeat split; try congruence; try apply Hd1.
  - do 3 eexists. split; [reflexivity |]. repeat split; auto.
Qed.

Lemma monitor_turns_run declared passes : forall prev s,
  exists prev' s' t,
    monitor_turns declared passes prev s = (Ok prev', s', t)
    /\ (forall k, is_Some (prev' !! k) <-> is_Some (prev !! k))
    /\ pvs s' !! "ENABLE" = pvs s !! "ENABLE"
    /\ status s' = status s /\ message s' = message s
    /\ cycle s' = (if truth (pvs s !! "ENABLE")
                   then cycle s + Z.of_nat (length passes) else cycle s).
Proof.
  induction passes as [| probes passes IH]; intros prev s.
  - exists prev, s, []. split; [reflexivity |].
    repeat split; auto. destruct (truth (pvs s !! "ENABLE")); simpl; lia.
  - destruct (monitor_turn_run declared probes prev s)
      as (prev1 & s1 & t1 & H1 & Hd1 & He1 & Hs1 & Hg1 & Hc1 & _).
    destruct (IH prev1 s1)
      as (prev2 & s2 & t2 & H2 & Hd2 & He2 & Hs2 & Hg2 & Hc2).
    exists prev2, s2, (t1 ++ t2).
    split; [simpl; unfold bind; rewrite H1, H2; reflexivity |].
    split; [intros k; rewrite Hd2; apply Hd1 |].
    split; [congruence |]. split; [congruence |]. split; [congruence |].
    rewrite Hc2, He1, Hc1.
    destruct (truth (pvs s !! "ENABLE")); simpl length; lia.
Qed.

(** X19. An enabled turn of the monitoring loop always counts a cycle:
    whatever the motors give or raise, the pass returns, the [except]
    branch of [run] is not reached, and status and message are left as
    they were. A disabled turn changes nothing. *)
Theorem enabled_turn_always_counts declared probes prev s :
  let r := monitor_turn declared probes prev s in
  (exists prev', result_of r = Ok prev')
  /\ status (state_of r) = status s
  /\ message (state_of r) = message s
  /\ (truth (pvs s !! "ENABLE") = true -> cycle (state_of r) = cycle s + 1)
  /\ (truth (pvs s !! "ENABLE") = false ->
      result_of r = Ok prev /\ state_of r = s).
Proof.
  intros r.
  destruct (monitor_turn_run declared probes prev s)
    as (prev' & s' & t & Hrun & _ & _ & Hs & Hg & Hc & Hoff).
  subst r. rewrite Hrun. unfold result_of, state_of. simpl.
  split; [eauto |]. split; [exact Hs |]. split; [exact Hg |]. split.
  - intros Hen. rewrite Hen in Hc. exact Hc.
  - intros Hen. destruct (Hoff Hen) as [-> ->]. split; reflexivity.
Qed.

(** X20. After a pass over motors with distinct names,
    [previous_moving_state] holds for every motor that was read the state
    read in this pass; the entry of a motor whose read raised, and every
    other entry, is the one from before the pass. *)
Theorem previous_state_tracks_reads declared probes prev s :
  NoDup probes.*1 ->
  exists prev' s' t,
    monitor_motors declared probes prev s = (Ok prev', s', t)
    /\ (forall name p, (name, p) ∈ probes ->
        prev' !! name = match read_motor name p prev with
                        | inr (b, _, _) => Some b
                        | inl _ => prev !! name
                        end)
    /\ (forall name, name ∉ probes.*1 -> prev' !! name = prev !! name).
Proof.
  revert prev s. induction probes as [| [n0 p0] probes IH]; intros prev s Hnd.
  - exists prev, s, []. split; [reflexivity |]. split; [| reflexivity].
    intros name p Hin. inversion Hin.
  - rewrite fmap_cons in Hnd. simpl in Hnd.
    apply NoDup_cons in Hnd as [Hn0 Hnd].
    assert (exists prev1 s1 t1,
              monitor_motor declared n0 p0 prev s = (Ok prev1, s1, t1)
              /\ prev1 !! n0 = match read_motor n0 p0 prev with
                               | inr (b, _, _) => Some b
                               | inl _ => prev !! n0
                               end
              /\ (forall k, k ≠ n0 -> prev1 !! k = prev !! k))
      as (prev1 & s1 & t1 & H1 & Hhead & Hrest).
    { destruct (read_motor n0 p0 prev) as [e | [[b pos] was]] eqn:Hr.
      - rewrite (monitor_motor_failed _ _ _ _ _ _ Hr).
        do 3 eexists. split; [reflexivity |]. split; reflexivity.
      - destruct (monitor_motor_read declared _ _ _ _ _ _ s Hr)
          as (s1 & t1 & Hrun & _).
        do 3 eexists. split; [exact Hrun |]. split.
        + apply lookup_insert_eq.
        + intros k Hk. apply lookup_insert_ne. congruence. }
    destruct (IH prev1 s1 Hnd) as (prev2 & s2 & t2 & H2 & Hin2 & Hout2).
    exists prev2, s2, (t1 ++ t2).
    split; [simpl; unfold bind; rewrite H1, H2; reflexivity |]. split.
    + intros name p Hin. apply elem_of_cons in Hin as [[= -> ->] | Hin].
      * rewrite (Hout2 n0 Hn0). exact Hhead.
      * assert (name ≠ n0) as Hne.
        { intros ->. apply Hn0. apply list_elem_of_fmap.
          exists (n0, p). split; [reflexivity | exact Hin]. }
        rewrite (Hin2 name p Hin),
          (read_motor_ext name p prev1 prev (Hrest name Hne)).
        destruct (read_motor name p prev) as [e | [[b pos] was]];
          [apply Hrest; exact Hne | reflexivity].
    + intros name Hout. rewrite fmap_cons in Hout. simpl in Hout.
      apply not_elem_of_cons in Hout as [Hne Hout].
      rewrite (Hout2 name Hout). apply Hrest. exact Hne.
Qed.

(** X21. After a pass the variable MOVING holds the state of the last
    motor, in the order of [self.motors], whose read did not raise - not
    whether any motor is moving - and is left as it was when every read
    raised. *)
Theorem moving_variable_is_last_read declared probes prev s :
  pvs (state_of (monitor_motors declared probes prev s)) !! "MOVING" =
    match last (omap (motor_read prev) probes) with
    | Some b => Some (of_bool b)
    | None => pvs s !! "MOVING"
    end.
Proof.
  destruct (monitor_motors_run declared probes prev s)
    as (prev' & s' & t & Hrun & _ & _ & Hm & _).
  rewrite Hrun. exact Hm.
Qed.

(** X22. The grace period of the movement callback, in turns of [run]:
    starting enabled, with nothing else writing ENABLE, each turn counts a
    cycle and leaves the task enabled, so after the turns the callback
    sets the switch-off devices exactly when the counter has passed 10. *)
Theorem grace_period_counts_enabled_turns
    declared passes prev switches name position s :
  truth (pvs s !! "ENABLE") = true ->
  let s' := state_of (monitor_turns declared passes prev s) in
  cycle s' = cycle s + Z.of_nat (length passes)
  /\ truth (pvs s' !! "ENABLE") = true
  /\ devices_set (trace_of (motor_moved_callback switches name position s')) =
       (if 10 <? cycle s + Z.of_nat (length passes)
        then map sw_name (List.filter accepts switches)
        else []).
Proof.
  intros Hen s'.
  destruct (monitor_turns_run declared passes prev s)
    as (prev' & s1 & t & Hrun & _ & He & _ & _ & Hc).
  subst s'. rewrite Hrun. unfold state_of at 1 2 3. simpl.
  rewrite Hen in Hc. rewrite He.
  split; [exact Hc |]. split; [exact Hen |].
  destruct (callback_run switches name position s1) as [Hlow Hhigh].
  rewrite <- Hc.
  destruct (Z.ltb_spec 10 (cycle s1)) as [Hgt | Hle].
  - destruct (Hhigh Hgt) as (rest & Hcb & _ & Hon).
    rewrite Hcb. unfold trace_of. simpl.
    apply Hon. rewrite He. exact Hen.
  - rewrite (Hlow Hle). reflexivity.
Qed.

End MonitorTurns.

Section MonitorSetup.
Import MotorMonitor.

Lemma dict_add_elem key keys name :
  name ∈ dict_add key keys <-> name ∈ keys \/ name = key.
Proof.
  unfold dict_add. destruct (bool_decide_reflect (key ∈ keys)) as [Hin | Hout].
  - split; [auto |]. intros [H | ->]; assumption.
  - rewrite elem_of_app, list_elem_of_singleton. reflexivity.
Qed.

Lemma dict_add_NoDup key keys : NoDup keys -> NoDup (dict_add key keys).
Proof.
  intros Hnd. unfold dict_add.
  destruct (bool_decide_reflect (key ∈ keys)) as [Hin | Hout]; [exact Hnd |].
  apply NoDup_app. split; [exact Hnd |]. split.
  - intros x Hx Hk. apply list_elem_of_singleton in Hk as ->. auto.
  - apply NoDup_singleton.
Qed.

Lemma find_devices_keys what has_device requested : forall keys t,
  NoDup keys ->
  NoDup (find_devices what has_device requested keys t).1
  /\ forall name,
       name ∈ (find_devices what has_device requested keys t).1 <->
       name ∈ keys \/ (name ∈ requested /\ has_device name = true).
Proof.
  induction requested as [| r requested IH]; intros keys t Hnd; simpl.
  - split; [exact Hnd |]. intros name. split; [auto |].
    intros [H | [H _]]; [exact H | inversion H].
  - destruct (has_device r) eqn:Hr.
    + destruct (IH (dict_add r keys)
                  (t ++ [Log Info ("Found " +:+ what +:+ " device: " +:+ r)])
                  (dict_add_NoDup r keys Hnd)) as [Hnd' Hin'].
      split; [exact Hnd' |]. intros name.
      rewrite Hin', dict_add_elem, elem_of_cons. split.
      * intros [[H | ->] | [H1 H2]]; auto.
      * intros [H | [[-> | H1] H2]]; auto.
    + destruct (IH keys t Hnd) as [Hnd' Hin'].
      split; [exact Hnd' |]. intros name.
      rewrite Hin', elem_of_cons. split.
      * intros [H | [H1 H2]]; auto.
      * intros [H | [[-> | H1] H2]]; auto. congruence.
Qed.

Lemma all_stopped_from names : forall (m : gmap string bool) name,
  fold_left (fun m name => <[name := false]> m) names m !! name =
    if bool_decide (name ∈ names) then Some false else m !! name.
Proof.
  induction names as [| n names IH]; intros m name; cbn [fold_left].
  - rewrite bool_decide_eq_false_2 by apply not_elem_of_nil. reflexivity.
  - rewrite IH.
    destruct (bool_decide_reflect (name ∈ names)) as [Hin | Hout].
    + rewrite bool_decide_eq_true_2 by (apply elem_of_cons; auto). reflexivity.
    + destruct (decide (name = n)) as [-> | Hne].
      * rewrite bool_decide_eq_true_2 by (apply elem_of_cons; auto).
        apply lookup_insert_eq.
      * rewrite bool_decide_eq_false_2
          by (rewrite elem_of_cons; intros [? | ?]; auto).
        apply lookup_insert_ne. congruence.
Qed.

Lemma all_stopped_lookup names name :
  all_stopped names !! name =
    if bool_decide (name ∈ names) then Some false else None.
Proof. unfold all_stopped. rewrite all_stopped_from. reflexivity. Qed.

Lemma initialize_state has_device motors_list switchoff_names :
  let st := (initialize has_device motors_list switchoff_names).1 in
  motors st =
    match motors_list with
    | [] => []
    | _ => (find_devices "motor" has_device motors_list []
              [Log Info "Initializing motor control task"]).1
    end
  /\ previous_moving_state st = all_stopped (motors st)
  /\ (motors_list = [] -> switches st = [])
  /\ (motors_list ≠ [] ->
      exists t, switches st =
                  (find_devices "switchoff" has_device switchoff_names [] t).1).
Proof.
  unfold initialize. destruct motors_list as [| m0 ms].
  - simpl. split; [reflexivity |]. split; [reflexivity |].
    split; [reflexivity | congruence].
  - destruct (find_devices "motor" has_device (m0 :: ms) []
                [Log Info "Initializing motor control task"]) as [found tm].
    destruct (find_devices "switchoff" has_device switchoff_names [] tm)
      as [sws ts] eqn:Hsw.
    simpl. split; [reflexivity |]. split; [reflexivity |].
    split; [discriminate |]. intros _. exists tm. rewrite Hsw. reflexivity.
Qed.

(** X23. What [initialize] finds. The motors kept are the requested names
    that have a device, each once, and [previous_moving_state] has exactly
    these names, all [False]. The switch-off devices are looked up only
    when [motors] is not empty: with no motor requested none is kept,
    whatever [switchoff] names. *)
Theorem initialize_tracks_found_motors has_device motors_list switchoff_names :
  let st := (initialize has_device motors_list switchoff_names).1 in
  NoDup (motors st)
  /\ (forall name,
        name ∈ motors st <-> name ∈ motors_list /\ has_device name = true)
  /\ (forall name,
        previous_moving_state st !! name =
          if bool_decide (name ∈ motors st) then Some false else None)
  /\ (motors_list = [] -> switches st = [])
  /\ (motors_list ≠ [] ->
      NoDup (switches st)
      /\ forall name,
           name ∈ switches st <->
           name ∈ switchoff_names /\ has_device name = true).
Proof.
  intros st.
  destruct (initialize_state has_device motors_list switchoff_names)
    as (Hm & Hp & Hnone & Hsome).
  fold st in Hm, Hp, Hnone, Hsome.
  assert (NoDup (motors st)
          /\ forall name,
               name ∈ motors st <->
               name ∈ motors_list /\ has_device name = true) as [Hnd Hin].
  { rewrite Hm. destruct motors_list as [| m0 ms].
    - split; [constructor |]. intros name. split.
      + intros H. inversion H.
      + intros [H _]. inversion H.
    - destruct (find_devices_keys "motor" has_device (m0 :: ms) []
                  [Log Info "Initializing motor control task"])
        as [Hnd Hin]; [constructor |].
      split; [exact Hnd |]. intros name. rewrite Hin. split.
      + intros [H | H]; [inversion H | exact H].
      + auto. }
  split; [exact Hnd |]. split; [exact Hin |].
  split; [intros name; rewrite Hp; apply all_stopped_lookup |].
  split; [exact Hnone |].
  intros Hne. destruct (Hsome Hne) as [t ->].
  destruct (find_devices_keys "switchoff" has_device switchoff_names [] t)
    as [Hnd' Hin']; [constructor |].
  split; [exact Hnd' |]. intros name. rewrite Hin'. split.
  - intros [H | H]; [inversion H | exact H].
  - auto.
Qed.

(** X24. The motors tracked are fixed by [initialize]: through any number
    of turns of [run], whatever the motors give or raise, the keys of
    [previous_moving_state] stay the motors found, so the lookup of line
    142 never fails for one of them. *)
Theorem tracked_motors_are_fixed
    has_device motors_list switchoff_names declared passes s :
  let st := (initialize has_device motors_list switchoff_names).1 in
  exists prev',
    result_of (monitor_turns declared passes (previous_moving_state st) s)
      = Ok prev'
    /\ (forall name, is_Some (prev' !! name) <-> name ∈ motors st)
    /\ (forall name p key,
          name ∈ motors st -> read_motor name p prev' ≠ inl (KeyError key)).
Proof.
  intros st.
  destruct (initialize_state has_device motors_list switchoff_names)
    as (_ & Hp & _). fold st in Hp.
  destruct (monitor_turns_run declared passes (previous_moving_state st) s)
    as (prev' & s' & t & Hrun & Hd & _).
  assert (forall name, is_Some (prev' !! name) <-> name ∈ motors st) as Hkeys.
  { intros name. rewrite Hd, Hp, all_stopped_lookup.
    destruct (bool_decide_reflect (name ∈ motors st)) as [Hin | Hout].
    - split; eauto.
    - split; [intros [? [=]] | intros H; contradiction]. }
  exists prev'. rewrite Hrun. split; [reflexivity |]. split; [exact Hkeys |].
  intros name p key Hin. apply Hkeys in Hin as [was Hwas].
  unfold read_motor. rewrite Hwas.
  destruct (match probe_moving p with
            | Some r => r | None => Returned false end); [| discriminate].
  destruct (match probe_position p with
            | Some r => r
            | None => match probe_readback p with
                      | Some (Returned v) => Returned v
                      | _ => Returned None
                      end
            end); discriminate.
Qed.

End MonitorSetup.

Section MonitorWitnesses.
Import MotorCheck MotorMonitor Scenario ScenarioMotors.

Lemma enabled_turn_always_counts_witness :
  (truth (pvs start !! "ENABLE") = true
   /\ cycle (state_of (monitor_turn undeclared scene tracked start))
      = cycle start + 1)
  /\ (truth (pvs (initial_task ∅) !! "ENABLE") = false
      /\ state_of (monitor_turn undeclared scene tracked (initial_task ∅))
         = initial_task ∅).
Proof.
  assert (truth (pvs start !! "ENABLE") = true) as H1
    by (vm_compute; reflexivity).
  assert (truth (pvs (initial_task ∅) !! "ENABLE") = false) as H2
    by reflexivity.
  split; (split; [assumption |]).
  - exact (proj1 (proj2 (proj2 (proj2
             (enabled_turn_always_counts undeclared scene tracked start)))) H1).
  - exact (proj2 (proj2 (proj2 (proj2 (proj2
             (enabled_turn_always_counts undeclared scene tracked
                (initial_task ∅))))) H2)).
Defined.

Lemma previous_state_tracks_reads_witness :
  NoDup scene.*1
  /\ exists prev' s' t,
       monitor_motors undeclared scene tracked start = (Ok prev', s', t)
       /\ prev' !! "stage" = Some true
       /\ prev' !! "iris" = Some false.
Proof.
  assert (NoDup scene.*1) as Hnd
    by (apply (bool_decide_unpack _); vm_compute; exact I).
  split; [exact Hnd |].
  destruct (previous_state_tracks_reads undeclared scene tracked start Hnd)
    as (prev' & s' & t & Hrun & Hin & _).
  exists prev', s', t. split; [exact Hrun |]. split.
  - assert (("stage", moving_motor) ∈ scene) as Hs by (apply list_elem_of_here).
    exact (Hin "stage" moving_motor Hs).
  - assert (("iris", broken_motor) ∈ scene) as Hs
      by (do 2 apply list_elem_of_further; apply list_elem_of_here).
    exact (Hin "iris" broken_motor Hs).
Defined.

Lemma grace_period_counts_enabled_turns_witness :
  let s' := state_of (monitor_turns undeclared (replicate 11 scene) tracked
                        start) in
  truth (pvs start !! "ENABLE") = true
  /\ devices_set (trace_of (motor_moved_callback [shutter] "stage"
                              (Some (Fin 3)) s')) = ["SHUTTER"].
Proof.
  intros s'.
  assert (truth (pvs start !! "ENABLE") = true) as H1
    by (vm_compute; reflexivity).
  split; [exact H1 |].
  exact (proj2 (proj2 (grace_period_counts_enabled_turns undeclared
                         (replicate 11 scene) tracked [shutter] "stage"
                         (Some (Fin 3)) start H1))).
Defined.

Lemma initialize_tracks_found_motors_witness :
  (@nil string = [] /\ switches (initialize only_stage [] ["stage"]).1 = [])
  /\ (["stage"; "ghost"; "stage"] ≠ []
      /\ NoDup (switches (initialize only_stage ["stage"; "ghost"; "stage"]
                            ["stage"]).1)).
Proof.
  assert (@nil string = []) as H1 by reflexivity.
  assert (["stage"; "ghost"; "stage"] ≠ @nil string) as H2 by discriminate.
  split; (split; [assumption |]).
  - exact (proj1 (proj2 (proj2 (proj2
             (initialize_tracks_found_motors only_stage [] ["stage"])))) H1).
  - exact (proj1 (proj2 (proj2 (proj2 (proj2
             (initialize_tracks_found_motors only_stage
                ["stage"; "ghost"; "stage"] ["stage"])))) H2)).
Defined.

Lemma tracked_motors_are_fixed_witness :
  let st := (initialize only_stage ["stage"; "ghost"] []).1 in
  "stage" ∈ motors st
  /\ exists prev',
       result_of (monitor_turns undeclared [scene; scene]
                    (previous_moving_state st) start) = Ok prev'
       /\ read_motor "stage" moving_motor prev' ≠ inl (KeyError "stage").
Proof.
  intros st.
  assert ("stage" ∈ motors st) as Hin by (apply list_elem_of_here).
  split; [exact Hin |].
  destruct (tracked_motors_are_fixed only_stage ["stage"; "ghost"] []
              undeclared [scene; scene] start) as (prev' & Hrun & _ & Hkey).
  exists prev'. split; [exact Hrun |].
  exact (Hkey "stage" moving_motor "stage" Hin).
Defined.

End MonitorWitnesses.
